(** * The airports dataset refresh script (scripts/download_airports.py)

    A shallow embedding of [download_file], [filter_csv], [run_once] and
    [run_continuously], together with the parts of the Python standard
    library they lean on ([str.strip], the UTF-8 codec, text-mode line
    reading, the [csv] reader and writer of the excel dialect,
    [csv.DictReader], [csv.DictWriter] and [PurePath.with_suffix]).

    Conventions.
    - A Python [str] is a list of Unicode code points ([N]); [bytes] is a
      list of octets ([N] below 256).  [str "US"] is the literal ['US'].
    - The file system is a finite map from paths to the bytes stored there.
      Directories, permissions and I/O errors of the disk are not
      modelled: the disk serves every request, and a file can be written
      at any path.  Where a real disk refuses (the directory of the file
      cannot be made, the path is a directory, there is no room), the
      code catches the OSError in [download_file] and in [filter_csv] and
      returns False; such runs lie outside the model.  What is stated
      below of a call that returned True, or of a file that was written,
      holds of the code as it stands; that a call returns True is stated
      of the data it is given, never of the disk.
    - A function whose Python body is wrapped in [try ... except Exception]
      returns its boolean together with the file system it leaves behind;
      what it prints is not modelled.
    - The input file is read lazily by Python and in one go here: every
      error of the reading phase is caught the same way and leads to the
      same return value, before the output file is opened.
    - The remote source is an argument: what the HTTP request yields.
    - A Python [float] is a binary64 number ([PrimFloat.float]), with the
      rounding of its arithmetic; [time.sleep] is the one of CPython 3.11
      on Linux. *)

From Stdlib Require Import NArith ZArith Ascii String Floats.
From stdpp Require Import gmap strings list fin_maps numbers.

Local Open Scope N_scope.

(* ===================================================================== *)
(** * Python strings                                                      *)
(* ===================================================================== *)

Abbreviation pystr := (list N).
Abbreviation bytes := (list N).

(** A string literal of the source, as code points. *)
Definition str (s : string) : pystr := N_of_ascii <$> list_ascii_of_string s.

Definition LF : N := 10.
Definition CR : N := 13.
Definition COMMA : N := 44.
Definition DQUOTE : N := 34.
Definition DOT : N := 46.
Definition SLASH : N := 47.

(** [str.isspace] on one code point (CPython's [_PyUnicode_IsWhitespace]). *)
Definition isspace (c : N) : bool :=
  ((9 <=? c) && (c <=? 13)) || ((28 <=? c) && (c <=? 32))
  || (c =? 133) || (c =? 160) || (c =? 5760)
  || ((8192 <=? c) && (c <=? 8202))
  || (c =? 8232) || (c =? 8233) || (c =? 8239) || (c =? 8287) || (c =? 12288).

Fixpoint lstrip (s : pystr) : pystr :=
  match s with
  | [] => []
  | c :: s' => if isspace c then lstrip s' else s
  end.

Definition rstrip (s : pystr) : pystr := reverse (lstrip (reverse s)).

(** [s.strip()] *)
Definition strip (s : pystr) : pystr := rstrip (lstrip s).

(** [s.rfind(c)]: index of the last occurrence, [None] for Python's [-1]. *)
Fixpoint rfind (c : N) (s : pystr) : option nat :=
  match s with
  | [] => None
  | x :: s' =>
      match rfind c s' with
      | Some i => Some (S i)
      | None => if x =? c then Some 0%nat else None
      end
  end.

(* ===================================================================== *)
(** * The UTF-8 codec (errors='strict')                                   *)
(* ===================================================================== *)

Definition is_cont (b : N) : bool := (128 <=? b) && (b <=? 191).

Definition between (lo hi b : N) : bool := (lo <=? b) && (b <=? hi).

(** Range of the second byte allowed after lead byte [b0]: overlong forms,
    surrogates and values above U+10FFFF are rejected. *)
Definition second_lo (b0 : N) : N :=
  if b0 =? 224 then 160 else if b0 =? 240 then 144 else 128.
Definition second_hi (b0 : N) : N :=
  if b0 =? 237 then 159 else if b0 =? 244 then 143 else 191.

(** [bytes.decode('utf-8')]; [None] is [UnicodeDecodeError]. *)
Fixpoint decode_utf8 (bs : bytes) : option pystr :=
  match bs with
  | [] => Some []
  | b0 :: r0 =>
      if b0 <? 128 then cons b0 <$> decode_utf8 r0
      else if between 194 223 b0 then
        match r0 with
        | b1 :: r1 =>
            if is_cont b1
            then cons ((b0 - 192) * 64 + (b1 - 128)) <$> decode_utf8 r1
            else None
        | _ => None
        end
      else if between 224 239 b0 then
        match r0 with
        | b1 :: b2 :: r2 =>
            if between (second_lo b0) (second_hi b0) b1 && is_cont b2
            then cons ((b0 - 224) * 4096 + (b1 - 128) * 64 + (b2 - 128))
                   <$> decode_utf8 r2
            else None
        | _ => None
        end
      else if between 240 244 b0 then
        match r0 with
        | b1 :: b2 :: b3 :: r3 =>
            if between (second_lo b0) (second_hi b0) b1 && is_cont b2 && is_cont b3
            then cons ((b0 - 240) * 262144 + (b1 - 128) * 4096
                       + (b2 - 128) * 64 + (b3 - 128))
                   <$> decode_utf8 r3
            else None
        | _ => None
        end
      else None
  end.

Definition encode_char (c : N) : bytes :=
  if c <? 128 then [c]
  else if c <? 2048 then [192 + c / 64; 128 + c mod 64]
  else if c <? 65536 then
    [224 + c / 4096; 128 + (c / 64) mod 64; 128 + c mod 64]
  else
    [240 + c / 262144; 128 + (c / 4096) mod 64; 128 + (c / 64) mod 64;
     128 + c mod 64].

(** [s.encode('utf-8')].  Every string the script writes is assembled from
    decoded input and ASCII punctuation, so the encoder's only error
    (a lone surrogate) does not arise. *)
Definition encode_utf8 (s : pystr) : bytes := s ≫= encode_char.

(** The Unicode scalar values, that is every code point but the
    surrogates: what the decoder yields and what the encoder takes. *)
Definition is_scalar (c : N) : bool :=
  (c <? 55296) || ((57344 <=? c) && (c <? 1114112)).

(* ===================================================================== *)
(** * Reading a text file line by line (newline=None)                     *)
(* ===================================================================== *)

(** Universal newlines: ['\r\n'] and ['\r'] are handed over as ['\n']. *)
Fixpoint universal_newlines (s : pystr) : pystr :=
  match s with
  | [] => []
  | c :: s' =>
      if c =? CR then
        LF :: match s' with
              | c' :: s'' =>
                  if c' =? LF then universal_newlines s''
                  else universal_newlines s'
              | [] => []
              end
      else c :: universal_newlines s'
  end.

(** The lines of a text, each keeping its terminator. *)
Fixpoint split_lines (cur : pystr) (s : pystr) : list pystr :=
  match s with
  | [] => match cur with [] => [] | _ => [cur] end
  | c :: s' =>
      if c =? LF then (cur ++ [c]) :: split_lines [] s'
      else split_lines (cur ++ [c]) s'
  end.

(** Iterating over [open(path, 'r', encoding='utf-8')]. *)
Definition text_lines (raw : bytes) : option (list pystr) :=
  t ← decode_utf8 raw; Some (split_lines [] (universal_newlines t)).

(* ===================================================================== *)
(** * The csv module, excel dialect                                       *)
(* ===================================================================== *)

(** Delimiter comma, quotechar double quote, doublequote, no escapechar,
    not strict, QUOTE_MINIMAL, lineterminator [\r\n] (CPython 3.11, where
    a NUL is a character like any other).  Without an escapechar the
    escape states of the C reader are unreachable and are left out. *)
Inductive parser_state :=
| START_RECORD | START_FIELD | IN_FIELD | IN_QUOTED_FIELD
| QUOTE_IN_QUOTED_FIELD | EAT_CRNL.

Record reader_obj := Reader {
  state : parser_state;
  field : pystr;          (* characters of the field being read *)
  fields : list pystr     (* fields of the record being read *)
}.

(** [csv.field_size_limit()] *)
Definition field_limit : N := 131072.

Definition parse_reset : reader_obj := Reader START_RECORD [] [].

Definition set_state (st : parser_state) (r : reader_obj) : reader_obj :=
  Reader st (field r) (fields r).

Definition parse_save_field (r : reader_obj) : reader_obj :=
  Reader (state r) [] (fields r ++ [field r]).

(** [None] is [csv.Error]: field larger than field limit. *)
Definition parse_add_char (r : reader_obj) (c : N) : option reader_obj :=
  if field_limit <=? N.of_nat (length (field r)) then None
  else Some (Reader (state r) (field r ++ [c]) (fields r)).

Definition is_newline (c : N) : bool := (c =? LF) || (c =? CR).

(** One step of the reader's automaton; the input [None] is the
    end-of-line mark the reader feeds itself after every line. *)
Definition parse_process_char (r : reader_obj) (c : option N)
  : option reader_obj :=
  let start_field r :=
    match c with
    | None => Some (set_state START_RECORD (parse_save_field r))
    | Some c =>
        if is_newline c then Some (set_state EAT_CRNL (parse_save_field r))
        else if c =? DQUOTE then Some (set_state IN_QUOTED_FIELD r)
        else if c =? COMMA then Some (parse_save_field r)
        else set_state IN_FIELD <$> parse_add_char r c
    end in
  match state r with
  | START_RECORD =>
      match c with
      | None => Some r
      | Some c' =>
          if is_newline c' then Some (set_state EAT_CRNL r)
          else start_field (set_state START_FIELD r)
      end
  | START_FIELD => start_field r
  | IN_FIELD =>
      match c with
      | None => Some (set_state START_RECORD (parse_save_field r))
      | Some c =>
          if is_newline c then Some (set_state EAT_CRNL (parse_save_field r))
          else if c =? COMMA then Some (set_state START_FIELD (parse_save_field r))
          else parse_add_char r c
      end
  | IN_QUOTED_FIELD =>
      match c with
      | None => Some r
      | Some c =>
          if c =? DQUOTE then Some (set_state QUOTE_IN_QUOTED_FIELD r)
          else parse_add_char r c
      end
  | QUOTE_IN_QUOTED_FIELD =>
      match c with
      | None => Some (set_state START_RECORD (parse_save_field r))
      | Some c =>
          if c =? DQUOTE then set_state IN_QUOTED_FIELD <$> parse_add_char r c
          else if c =? COMMA then Some (set_state START_FIELD (parse_save_field r))
          else if is_newline c then Some (set_state EAT_CRNL (parse_save_field r))
          else set_state IN_FIELD <$> parse_add_char r c
      end
  | EAT_CRNL =>
      match c with
      | None => Some (set_state START_RECORD r)
      | Some c => if is_newline c then Some r else None
      end
  end.

Fixpoint feed_line (r : reader_obj) (line : pystr) : option reader_obj :=
  match line with
  | [] => parse_process_char r None
  | c :: line' => r' ← parse_process_char r (Some c); feed_line r' line'
  end.

Definition unfinished (r : reader_obj) : bool :=
  negb (bool_decide (field r = []))
  || match state r with IN_QUOTED_FIELD => true | _ => false end.

(** All the rows [csv.reader(lines)] yields, [None] if it raises. *)
Fixpoint reader_rows (r : reader_obj) (lines : list pystr)
  : option (list (list pystr)) :=
  match lines with
  | [] =>
      if unfinished r then Some [fields (parse_save_field r)] else Some []
  | line :: lines' =>
      r' ← feed_line r line;
      match state r' with
      | START_RECORD => cons (fields r') <$> reader_rows parse_reset lines'
      | _ => reader_rows r' lines'
      end
  end.

Definition csv_reader (lines : list pystr) : option (list (list pystr)) :=
  reader_rows parse_reset lines.

(** The writer.  A field is quoted when it holds the delimiter, the
    quotechar or a character of the line terminator; a quote inside is
    doubled. *)
Definition must_quote (c : N) : bool :=
  (c =? COMMA) || (c =? DQUOTE) || (c =? CR) || (c =? LF).

Definition join_append (fld : pystr) : pystr :=
  let data := fld ≫= (λ c, if c =? DQUOTE then [DQUOTE; DQUOTE] else [c]) in
  if existsb must_quote fld then [DQUOTE] ++ data ++ [DQUOTE] else data.

Fixpoint join_fields (flds : list pystr) : pystr :=
  match flds with
  | [] => []
  | [f] => join_append f
  | f :: flds' => join_append f ++ [COMMA] ++ join_fields flds'
  end.

(** The line [writer.writerow(flds)] hands to the file; [None] in a field
    position (Python's [None]) is written as the empty field. *)
Definition csv_writerow (flds : list (option pystr)) : pystr :=
  let rec := join_fields (default [] <$> flds) in
  (match flds, rec with
   | _ :: _, [] => [DQUOTE; DQUOTE]   (* a lone empty field is quoted *)
   | _, _ => rec
   end) ++ [CR; LF].

(** A row as [csv.DictReader] yields it: a dict keyed by field names whose
    values are strings or Python's [None] (the restval that pads a short
    row), plus, for a long row, the surplus cells stored under the key
    [None] (the restkey), kept apart here as [rest]. *)
Record row_dict := Row {
  cells : gmap pystr (option pystr);
  rest : option (list pystr)
}.

(** [dict(zip(keys, vals))]: a later duplicate key overwrites. *)
Definition dict_zip (keys vals : list pystr) : gmap pystr (option pystr) :=
  foldl (λ d kv, <[kv.1 := Some kv.2]> d) ∅ (zip keys vals).

(** The body of [DictReader.__next__] for one non-blank [row]. *)
Definition DictReader_row (fieldnames row : list pystr) : row_dict :=
  let d := dict_zip fieldnames row in
  let lf := length fieldnames in
  let lr := length row in
  if (lf <? lr)%nat then Row d (Some (drop lf row))
  else if (lr <? lf)%nat then
    Row (foldl (λ d key, <[key := None]> d) d (drop lr fieldnames)) None
  else Row d None.

(** [reader.fieldnames] and the dicts the reader iterates over: the first
    row names the fields ([None] when there is no row at all), blank rows
    after it are skipped. *)
Definition DictReader (rows : list (list pystr))
  : option (list pystr) * list row_dict :=
  match rows with
  | [] => (None, [])
  | fieldnames :: body =>
      (Some fieldnames,
       DictReader_row fieldnames <$> filter (λ row, row ≠ []) body)
  end.

(** [rowdict.get(key, dflt)] *)
Definition dict_get (d : row_dict) (key dflt : pystr) : option pystr :=
  default (Some dflt) (cells d !! key).

(** [rowdict.keys() - fieldnames] is not empty. *)
Definition wrong_fields (fieldnames : list pystr) (d : row_dict) : bool :=
  bool_decide (is_Some (rest d))
  || negb (bool_decide (dom (cells d) ⊆ list_to_set fieldnames)).

(** [DictWriter._dict_to_list] with restval [''] and extrasaction 'raise';
    [None] is the [ValueError]. *)
Definition dict_to_list (fieldnames : list pystr) (d : row_dict)
  : option (list (option pystr)) :=
  if wrong_fields fieldnames d then None
  else Some ((λ key, dict_get d key []) <$> fieldnames).

(** [writer.writeheader()]: the field names as one row. *)
Definition writeheader (fieldnames : list pystr) : pystr :=
  csv_writerow (Some <$> fieldnames).

(** The line written for one row dict that passes [dict_to_list]. *)
Definition row_line (fieldnames : list pystr) (d : row_dict) : pystr :=
  csv_writerow ((λ key, dict_get d key []) <$> fieldnames).

(** [writer.writerows(rowdicts)]: rows go out one by one, so those before
    a row that raises are already written; the boolean tells whether the
    call returned normally. *)
Fixpoint writerows (fieldnames : list pystr) (rowdicts : list row_dict)
  : bool * pystr :=
  match rowdicts with
  | [] => (true, [])
  | d :: ds =>
      match dict_to_list fieldnames d with
      | None => (false, [])
      | Some flds =>
          let '(ok, out) := writerows fieldnames ds in
          (ok, csv_writerow flds ++ out)
      end
  end.

(* ===================================================================== *)
(** * Paths and the file system                                           *)
(* ===================================================================== *)

(** A resolved absolute path: its components below the root. *)
Abbreviation path := (list pystr).

Abbreviation filesystem := (gmap path bytes).

(** [PurePath.name] *)
Definition name (p : path) : pystr := List.last p [].

(** [PurePath.suffix] *)
Definition suffix (p : path) : pystr :=
  let name := name p in
  match rfind DOT name with
  | Some i =>
      if (0 <? i)%nat && (i <? length name - 1)%nat then drop i name else []
  | None => []
  end.

(** [PurePath.with_suffix]; [None] is its [ValueError]. *)
Definition with_suffix (p : path) (sfx : pystr) : option path :=
  if bool_decide (SLASH ∈ sfx) then None
  else if (negb (bool_decide (sfx = []))
           && negb (bool_decide (list.head sfx = Some DOT)))
          || bool_decide (sfx = [DOT]) then None
  else
    let name := name p in
    if bool_decide (name = []) then None
    else
      let old_suffix := suffix p in
      let name :=
        if bool_decide (old_suffix = []) then name ++ sfx
        else take (length name - length old_suffix) name ++ sfx in
      Some (removelast p ++ [name]).

(* ===================================================================== *)
(** * download_file                                                       *)
(* ===================================================================== *)

Definition AIRPORTS_CSV_URL : pystr :=
  str "https://davidmegginson.github.io/ourairports-data/airports.csv".

(** What [requests.get(url, stream=True)] turns out to be. *)
Inductive response :=
| RequestError
    (* the request or raise_for_status raises: no connection, timeout,
       non-success status *)
| Body (chunks : list bytes) (complete : bool).
    (* the chunks iter_content yields; when not [complete] the stream
       breaks after them and the iteration raises *)

(** The bytes the loop over [iter_content] writes: every non-empty
    chunk, in order. *)
Definition written_chunks (chunks : list bytes) : bytes :=
  concat (filter (λ chunk, chunk ≠ []) chunks).

(** [mkdir] of the parent directory and [open(output_path, 'wb')] are
    served by the disk (see the conventions above). *)
Definition download_file (get : pystr → response) (url : pystr)
    (output_path : path) (fs : filesystem) : bool * filesystem :=
  match get url with
  | RequestError => (false, fs)
  | Body chunks complete =>
      (* open(output_path, 'wb') truncates, then the chunks go in *)
      (complete, <[output_path := written_chunks chunks]> fs)
  end.

(* ===================================================================== *)
(** * filter_csv                                                          *)
(* ===================================================================== *)

Definition columns_to_remove : gset pystr :=
  {[ str "id"; str "home_link"; str "wikipedia_link"; str "keywords" ]}.

(** The test of one row inside the loop; [None] is the [AttributeError] of
    calling [.strip()] on [None]. *)
Definition keep_row (row : row_dict) : option bool :=
  iso_country ← strip <$> dict_get row (str "iso_country") [];
  icao_code ← strip <$> dict_get row (str "icao_code") [];
  Some (bool_decide (iso_country = str "US")
        && negb (bool_decide (icao_code = []))).

(** [{k: v for k, v in row.items() if k not in columns_to_remove}]; the
    key [None] is not a removed column, so [rest] stays. *)
Definition filtered_row (row : row_dict) : row_dict :=
  Row (filter (λ kv : pystr * option pystr, kv.1 ∉ columns_to_remove)
         (cells row))
      (rest row).

(** The [for row in reader] loop, building [filtered_data]. *)
Fixpoint select_rows (reader : list row_dict) : option (list row_dict) :=
  match reader with
  | [] => Some []
  | row :: reader' =>
      keep ← keep_row row;
      filtered_data ← select_rows reader';
      Some (if keep : bool then filtered_row row :: filtered_data
            else filtered_data)
  end.

(** [csv.DictReader(infile)] on the opened input, up to the test of
    [fieldnames]: the field names and the rows the loop will see.  [None]
    when opening, decoding or parsing raises, or when there is no header
    row ([fieldnames is None], the function returns False). *)
Definition open_reader (infile : bytes)
  : option (list pystr * list row_dict) :=
  lines ← text_lines infile;
  rows ← csv_reader lines;
  fieldnames ← (DictReader rows).1;
  Some (fieldnames, (DictReader rows).2).

(** The first [with] block: everything up to the point where the output
    file is opened.  [None] means the function has already returned False
    (no header, or an exception was caught). *)
Definition read_and_select (infile : bytes)
  : option (list pystr * list row_dict) :=
  '(fieldnames, reader) ← open_reader infile;
  filtered_data ← select_rows reader;
  Some (filter (λ f, f ∉ columns_to_remove) fieldnames, filtered_data).

(** The second [with] block: what ends up in the output file, and whether
    the writer got through. *)
Definition write_filtered (output_fieldnames : list pystr)
    (filtered_data : list row_dict) : bool * bytes :=
  let '(ok, body) := writerows output_fieldnames filtered_data in
  (ok, encode_utf8 (writeheader output_fieldnames ++ body)).

(** Both [with] blocks, one after the other.  An input file that is not
    there makes [open] raise; [open(output_path, 'w')] is served by the
    disk (see the conventions above). *)
Definition filter_csv (input_path output_path : path) (fs : filesystem)
  : bool * filesystem :=
  match fs !! input_path ≫= read_and_select with
  | None => (false, fs)
  | Some (output_fieldnames, filtered_data) =>
      let '(ok, content) := write_filtered output_fieldnames filtered_data in
      (ok, <[output_path := content]> fs)
  end.

(* ===================================================================== *)
(** * run_once and run_continuously                                       *)
(* ===================================================================== *)

(** How a call ends: with a returned boolean, or with an exception that
    nothing in the function catches. *)
Inductive outcome := Returned (ok : bool) | Raised.

Definition temp_path (output_path : path) : option path :=
  with_suffix output_path (str ".tmp.csv").

Definition run_once (get : pystr → response) (output_path : path)
    (fs : filesystem) : outcome * filesystem :=
  match temp_path output_path with
  | None => (Raised, fs)
  | Some temp_path =>
      let '(ok, fs) := download_file get AIRPORTS_CSV_URL temp_path fs in
      if negb ok then (Returned false, fs)
      else
        let '(ok, fs) := filter_csv temp_path output_path fs in
        if negb ok then (Returned false, delete temp_path fs)
        else (Returned true, delete temp_path fs)
  end.

(** [time.sleep(secs)] for a float, as CPython 3.11 does it on Linux.
    The length is turned into nanoseconds, [secs * 1e9] rounded away from
    zero to a whole number ([_PyTime_ROUND_TIMEOUT]). *)
Definition timeout_ns (secs : float) : Z :=
  match Prim2SF (PrimFloat.mul secs 1e9%float) with
  | S754_finite s m e =>
      let v := if (0 <=? e)%Z then (Z.pos m * 2 ^ e)%Z
               else ((Z.pos m + 2 ^ (- e) - 1) / 2 ^ (- e))%Z in
      if s then (- v)%Z else v
  | _ => 0%Z
  end.

(** Whether the call raises instead of sleeping: ValueError for a length
    that is not a number or is negative, OverflowError for one that does
    not fit 64 bits of nanoseconds, OSError when the deadline, the
    reading [monotonic] of the monotonic clock (in nanoseconds) plus the
    length, does not fit them either ([clock_nanosleep] refuses it). *)
Definition sleep_raises (monotonic : Z) (secs : float) : bool :=
  let d := PrimFloat.mul secs 1e9%float in
  PrimFloat.is_nan secs
  || PrimFloat.ltb d (-0x1p+63)%float || PrimFloat.leb 0x1p+63%float d
  || (timeout_ns secs <? 0)%Z
  || (2 ^ 63 <=? monotonic + timeout_ns secs)%Z.

(** The outside world of a long run: what the source answers during the
    k-th cycle, whether Ctrl+C arrives during the sleep that precedes
    cycle k (k >= 1), and what the monotonic clock reads, in nanoseconds,
    when that sleep is entered.  Ctrl+C at other moments is not
    modelled. *)
Record environment := Env {
  remote : nat → pystr → response;
  ctrl_c : nat → bool;
  monotonic : nat → Z
}.

Inductive event :=
| EvCycle (k : nat) (result : outcome)   (* run_once was called *)
| EvSleep (seconds : float)              (* time.sleep was entered *)
| EvSleepRaised      (* time.sleep raised: ValueError, OverflowError, OSError *)
| EvStopped.         (* KeyboardInterrupt caught, the function returns *)

(** [n] turns of the [while True] loop, starting with cycle [k].  An
    exception other than KeyboardInterrupt leaves the loop. *)
Fixpoint periodic (n k : nat) (env : environment) (output_path : path)
    (interval_seconds : float) (fs : filesystem)
  : list event * filesystem :=
  match n with
  | O => ([], fs)
  | S n' =>
      if sleep_raises (monotonic env k) interval_seconds
      then ([EvSleepRaised], fs)
      else if ctrl_c env k then ([EvSleep interval_seconds; EvStopped], fs)
      else
        let '(r, fs) := run_once (remote env k) output_path fs in
        match r with
        | Raised => ([EvSleep interval_seconds; EvCycle k r], fs)
        | Returned _ =>
            let '(tr, fs) :=
              periodic n' (S k) env output_path interval_seconds fs in
            (EvSleep interval_seconds :: EvCycle k r :: tr, fs)
        end
  end.

(** What [run_continuously] has done by the end of the [n]-th turn of its
    loop (the loop itself has no exit but Ctrl+C or an exception).
    [interval_hours] is the float argparse made of --interval; the
    default, the int 24, behaves as the float 24.0 does. *)
Definition run_continuously (n : nat) (env : environment)
    (output_path : path) (interval_hours : float) (fs : filesystem)
  : list event * filesystem :=
  let interval_seconds := PrimFloat.mul interval_hours 3600%float in
  let '(r, fs) := run_once (remote env 0) output_path fs in
  match r with
  | Raised => ([EvCycle 0 r], fs)
  | Returned _ =>
      let '(tr, fs) := periodic n 1 env output_path interval_seconds fs in
      (EvCycle 0 r :: tr, fs)
  end.

(* ===================================================================== *)
(** * main                                                                *)
(* ===================================================================== *)

(** The command line after [parser.parse_args()]; [args_output] is the
    path [Path(args.output).resolve()] has made of the option. *)
Record arguments := Args {
  args_output : path;
  args_continuous : bool;
  args_interval : float
}.

(** How the process ends once [run_continuously] is left: it returns
    after Ctrl+C and the script runs off its end (status 0), or an
    exception nobody catches ends the interpreter (status 1).  [None]:
    the loop is still turning. *)
Definition loop_exit (tr : list event) : option Z :=
  match list.last tr with
  | Some EvStopped => Some 0%Z
  | Some EvSleepRaised => Some 1%Z
  | Some (EvCycle _ Raised) => Some 1%Z
  | _ => None
  end.

(** [main()] from the parsed arguments on: the exit status of the
    process, as far as it is known after [n] turns of the loop, and the
    file system. *)
Definition main (n : nat) (env : environment) (args : arguments)
    (fs : filesystem) : option Z * filesystem :=
  if args_continuous args then
    let '(tr, fs) :=
      run_continuously n env (args_output args) (args_interval args) fs in
    (loop_exit tr, fs)
  else
    let '(success, fs) := run_once (remote env 0) (args_output args) fs in
    (* sys.exit(0 if success else 1); an exception ends with status 1 *)
    (Some (match success with Returned true => 0 | _ => 1 end)%Z, fs).

(* ===================================================================== *)
(** * Reading back what was written: auxiliary definitions                *)
(* ===================================================================== *)

(** The automaton run over a string, without the end-of-line mark. *)
Fixpoint feed_chars (r : reader_obj) (s : pystr) : option reader_obj :=
  match s with
  | [] => Some r
  | c :: s' => r' ← parse_process_char r (Some c); feed_chars r' s'
  end.

(** What the reader does when a line is over: the mark, then a row is
    handed out if the record is complete. *)
Definition end_of_line (r : reader_obj)
    (k : reader_obj → option (list (list pystr)))
  : option (list (list pystr)) :=
  r' ← parse_process_char r None;
  match state r' with
  | START_RECORD => cons (fields r') <$> k parse_reset
  | _ => k r'
  end.

(** The reader run over a whole text character by character; [pending]
    tells whether the current line has characters already. *)
Fixpoint run_text (r : reader_obj) (pending : bool) (t : pystr)
  : option (list (list pystr)) :=
  match t with
  | [] =>
      if pending then end_of_line r (λ r', reader_rows r' [])
      else reader_rows r []
  | c :: t' =>
      r1 ← parse_process_char r (Some c);
      if c =? LF then end_of_line r1 (λ r', run_text r' false t')
      else run_text r1 true t'
  end.

(** A field within the reader's field limit. *)
Definition short (f : pystr) : Prop := N.of_nat (length f) ≤ field_limit.

(** A string the script can write and read back unchanged: scalar
    values, no carriage return, within the reader's field limit. *)
Definition clean (f : pystr) : Prop :=
  Forall (λ c, is_scalar c = true ∧ c ≠ CR) f ∧ short f.

(** Every field the reader holds is made of characters with [P] and is
    within the field limit. *)
Definition fields_ok (P : N → Prop) (r : reader_obj) : Prop :=
  (Forall P (field r) ∧ short (field r))
  ∧ Forall (λ f, Forall P f ∧ short f) (fields r).

(** Every string among the values of a row dict is clean. *)
Definition row_clean (d : row_dict) : Prop :=
  ∀ key s, cells d !! key = Some (Some s) → clean s.

(** The cells the writer puts out for the row dict [d] under the header
    [fieldnames]: an absent key and Python's None give the empty string. *)
Definition written_cells (fieldnames : list pystr) (d : row_dict)
  : list pystr :=
  (λ key, default [] (dict_get d key [])) <$> fieldnames.

(* ===================================================================== *)
(** * Specification-side definitions                                      *)
(* ===================================================================== *)

(** The selection rule in the words of the specification: the country
    field trims to the target value and the code field is not empty after
    trimming. *)
Definition matches_rule (row : row_dict) : Prop :=
  ∃ country code,
    cells row !! str "iso_country" = Some (Some country)
    ∧ cells row !! str "icao_code" = Some (Some code)
    ∧ strip country = str "US"
    ∧ strip code ≠ [].

(** [header_minus R h h']: [h'] is [h] with exactly the names of [R]
    struck out, the others left where they stand. *)
Inductive header_minus (R : gset pystr) : list pystr → list pystr → Prop :=
| hm_nil : header_minus R [] []
| hm_drop f h h' : f ∈ R → header_minus R h h' → header_minus R (f :: h) h'
| hm_keep f h h' :
    f ∉ R → header_minus R h h' → header_minus R (f :: h) (f :: h').

(** [selected reader kept]: [kept] is [reader] with exactly the rows that
    do not match the rule struck out; the matching rows stay, each as
    often as it occurs and where it stands. *)
Inductive selected : list row_dict → list row_dict → Prop :=
| sel_nil : selected [] []
| sel_keep row reader kept :
    matches_rule row → selected reader kept →
    selected (row :: reader) (row :: kept)
| sel_drop row reader kept :
    ¬ matches_rule row → selected reader kept →
    selected (row :: reader) kept.


(** The event sequence of a run that keeps going: each later cycle comes
    right after one sleep of the interval. *)
Fixpoint schedule (seconds : float) (k : nat) (results : list bool)
  : list event :=
  match results with
  | [] => []
  | r :: rs =>
      EvSleep seconds :: EvCycle k (Returned r) :: schedule seconds (S k) rs
  end.

(* ===================================================================== *)
(** * Sample data                                                         *)
(* ===================================================================== *)

Module Sample.
Definition crlf : pystr := [CR; LF].

Definition output : path := [str "data"; str "airports.csv"].
Definition staging : path := [str "data"; str "airports.tmp.csv"].

(** Three airports: A (US, code K1), B (FR, code K2), C (US, no code). *)
Definition airports : bytes :=
  str "id,name,iso_country,icao_code,home_link
1,A,US,K1,h1
2,B,FR,K2,h2
3,C,US,,h3
".

Definition airports_filtered : bytes :=
  str "name,iso_country,icao_code" ++ crlf ++ str "A,US,K1" ++ crlf.

(** A data row with one cell more than the header has names. *)
Definition long_row : bytes :=
  str "iso_country,icao_code
US,KJFK,surplus
".

(** A table that starts with a blank line. *)
Definition blank_first_line : bytes :=
  LF :: str "name,iso_country,icao_code
A,US,K1
".

(** A dataset published by an earlier cycle. *)
Definition published : bytes :=
  str "iso_country,icao_code" ++ crlf ++ str "US,KLAX" ++ crlf.

Definition fs_published : filesystem := {[ output := published ]}.

Definition fs_staged (raw : bytes) : filesystem :=
  <[ staging := raw ]> fs_published.

Definition serves (raw : bytes) : pystr → response :=
  λ _, Body [raw] true.

Definition breaks_after (partial : bytes) : pystr → response :=
  λ _, Body [partial] false.

Definition unreachable : pystr → response := λ _, RequestError.

(** The rows [csv.DictReader] makes of [airports]. *)
Definition airports_reader : list row_dict :=
  Eval vm_compute in default [] (snd <$> open_reader airports).

(** The clock of a machine that was up for an hour when the run began
    and whose cycles come a day apart. *)
Definition clock (k : nat) : Z := ((3600 + 86400 * Z.of_nat k) * 10 ^ 9)%Z.

(** A source that never answers, and nobody pressing Ctrl+C. *)
Definition offline : environment :=
  Env (λ _, unreachable) (λ _, false) clock.

(** A source that never answers, and Ctrl+C during the second sleep. *)
Definition offline_interrupted : environment :=
  Env (λ _, unreachable) (λ k, bool_decide (k = 2%nat)) clock.

(** A source that serves the sample table to the first cycle and breaks
    off in every later one. *)
Definition once_then_broken : environment :=
  Env (λ k, if bool_decide (k = 0%nat) then serves airports
            else breaks_after (str "id,na"))
      (λ _, false) clock.

(** A table in which the third data row, a US airport, has a surplus
    cell; the row after it is a US airport as well. *)
Definition surplus_row : bytes :=
  str "iso_country,icao_code
US,K1
FR,K9,extra
US,K2,extra
US,K3
".

(** The rows [csv.DictReader] makes of [surplus_row]. *)
Definition surplus_reader : list row_dict :=
  Eval vm_compute in default [] (snd <$> open_reader surplus_row).
(** Two US airports and a French one.  The first has a quoted name
    holding quotes and a comma, a padded country and a note of two lines;
    the second stops short of the notes column. *)
Definition quoted : bytes :=
  str "id,name,iso_country,icao_code,notes" ++ crlf
  ++ str "1," ++ [DQUOTE] ++ str "Big " ++ [DQUOTE; DQUOTE] ++ str "A"
  ++ [DQUOTE; DQUOTE] ++ str ", one" ++ [DQUOTE] ++ str ", US ,KAAA,"
  ++ [DQUOTE] ++ str "line1" ++ crlf ++ str "line2" ++ [DQUOTE] ++ crlf
  ++ str "2,B,US,KBBB" ++ crlf
  ++ str "3,C,FR,LFPG,x" ++ [LF].

Definition quoted_filtered : bytes :=
  str "name,iso_country,icao_code,notes" ++ crlf
  ++ [DQUOTE] ++ str "Big " ++ [DQUOTE; DQUOTE] ++ str "A"
  ++ [DQUOTE; DQUOTE] ++ str ", one" ++ [DQUOTE] ++ str ", US ,KAAA,"
  ++ [DQUOTE] ++ str "line1" ++ [LF] ++ str "line2" ++ [DQUOTE] ++ crlf
  ++ str "B,US,KBBB," ++ crlf.

Definition quoted_header : list pystr :=
  [str "id"; str "name"; str "iso_country"; str "icao_code"; str "notes"].

(** The rows [csv.DictReader] makes of [quoted]. *)
Definition quoted_reader : list row_dict :=
  Eval vm_compute in default [] (snd <$> open_reader quoted).

(** The file system after [quoted], staged, has been filtered. *)
Definition fs_quoted : filesystem :=
  <[ output := quoted_filtered ]> (fs_staged quoted).
End Sample.

(* ===================================================================== *)
(** * Strings and paths                                                   *)
(* ===================================================================== *)

Section strings.
Implicit Types (s : pystr) (c : N) (i : nat).

Lemma rfind_lt c s i : rfind c s = Some i → (i < length s)%nat.
Proof.
  revert i. induction s as [|x s IH]; intros i; simpl; [done|].
  destruct (rfind c s) as [j|] eqn:Hj.
  - intros [= <-]. specialize (IH j eq_refl). lia.
  - destruct (x =? c); intros [= <-]. lia.
Qed.

(** Nothing after the position [rfind] reports is the character again. *)
Lemma rfind_drop c s i : rfind c s = Some i → rfind c (drop i s) = Some 0%nat.
Proof.
  revert i. induction s as [|x s IH]; intros i; simpl; [done|].
  destruct (rfind c s) as [j|] eqn:Hj.
  - intros [= <-]. simpl. by apply IH.
  - destruct (x =? c) eqn:Hx; intros [= <-]. simpl. by rewrite Hj, Hx.
Qed.

Lemma lstrip_nil : lstrip [] = [].
Proof. reflexivity. Qed.

Lemma strip_nil : strip [] = [].
Proof. reflexivity. Qed.

(** [lstrip] takes off a run of whitespace and stops at the first
    character that is none. *)
Lemma lstrip_spec s :
  ∃ l, s = l ++ lstrip s
       ∧ Forall (λ c, isspace c = true) l
       ∧ ∀ c t, lstrip s = c :: t → isspace c = false.
Proof.
  induction s as [|x s (l & Hs & Hl & Hhead)]; simpl.
  - exists []. by split_and!.
  - destruct (isspace x) eqn:Hx.
    + exists (x :: l). split_and!; [by rewrite Hs at 1|by constructor|done].
    + exists []. split_and!; [done|done|]. by intros c t [= <- <-].
Qed.

(** [strip] returns the middle of the string between a whitespace prefix
    and a whitespace suffix, and that middle neither starts nor ends with
    whitespace. *)
Lemma strip_spec s :
  ∃ l r, s = l ++ strip s ++ r
         ∧ Forall (λ c, isspace c = true) l
         ∧ Forall (λ c, isspace c = true) r
         ∧ (∀ c t, strip s = c :: t → isspace c = false)
         ∧ (∀ c t, strip s = t ++ [c] → isspace c = false).
Proof.
  destruct (lstrip_spec s) as (l & Hs & Hl & Hhead).
  destruct (lstrip_spec (reverse (lstrip s))) as (r & Hr & Hrsp & Hlast).
  assert (lstrip s = strip s ++ reverse r) as Hmid.
  { unfold strip, rstrip. rewrite <- reverse_app, <- Hr.
    by rewrite reverse_involutive. }
  exists l, (reverse r). split_and!.
  - by rewrite <- Hmid.
  - done.
  - by apply Forall_reverse.
  - intros c t Hc. apply (Hhead c (t ++ reverse r)). by rewrite Hmid, Hc.
  - intros c t Hc. apply (Hlast c (reverse t)).
    unfold strip, rstrip in Hc. apply (f_equal reverse) in Hc.
    by rewrite reverse_involutive, reverse_snoc in Hc.
Qed.

Lemma lstrip_all_space s : Forall (λ c, isspace c = true) s → lstrip s = [].
Proof. induction 1 as [|c s Hc _ IH]; simpl; [done|]. by rewrite Hc. Qed.

(** Empty after trimming means made of whitespace only. *)
Lemma strip_nil_iff s : strip s = [] ↔ Forall (λ c, isspace c = true) s.
Proof.
  split.
  - intros Hs. destruct (strip_spec s) as (l & r & Heq & Hl & Hr & _).
    rewrite Heq, Hs. by apply Forall_app.
  - intros Hs. unfold strip. by rewrite (lstrip_all_space s Hs).
Qed.
End strings.

Section paths.
Implicit Types (p q : path).

Lemma temp_path_unfold p :
  temp_path p =
    if bool_decide (name p = []) then None
    else Some (removelast p ++
               [if bool_decide (suffix p = []) then name p ++ str ".tmp.csv"
                else take (length (name p) - length (suffix p)) (name p)
                       ++ str ".tmp.csv"]).
Proof.
  unfold temp_path, with_suffix.
  destruct (bool_decide (SLASH ∈ str ".tmp.csv")) eqn:E1;
    [by vm_compute in E1|].
  destruct (_ || _) eqn:E2; [by vm_compute in E2|].
  reflexivity.
Qed.

Lemma temp_name_ne (nm : pystr) (i : nat) :
  rfind DOT nm = Some i → take i nm ++ str ".tmp.csv" ≠ nm.
Proof.
  intros Hi Heq.
  rewrite <- (take_drop i nm) in Heq at 2.
  apply app_inv_head in Heq.
  apply rfind_drop in Hi. rewrite <- Heq in Hi. by vm_compute in Hi.
Qed.

(** The staging path is never the output path itself. *)
Lemma temp_path_ne p q : temp_path p = Some q → q ≠ p.
Proof.
  rewrite temp_path_unfold. case_bool_decide as Hname; [done|].
  intros [= <-] Heq.
  assert (p ≠ []) as Hp by (intros ->; by apply Hname).
  pose proof (eq_trans Heq (app_removelast_last [] Hp)) as Hnm.
  apply app_inv_head in Hnm. injection Hnm as Hnm. fold (name p) in Hnm.
  clear Heq. rename Hnm into Heq.
  case_bool_decide as Hsfx.
  - apply (f_equal length) in Heq. rewrite length_app in Heq.
    vm_compute (length (str _)) in Heq. lia.
  - unfold suffix in *. destruct (rfind DOT (name p)) as [i|] eqn:Hi; [|done].
    destruct (_ && _); [|done].
    pose proof (rfind_lt _ _ _ Hi) as Hlt.
    rewrite length_drop in Heq.
    replace (length (name p) - (length (name p) - i))%nat with i in Heq by lia.
    by eapply temp_name_ne.
Qed.

Lemma temp_path_is_Some p : name p ≠ [] → is_Some (temp_path p).
Proof. rewrite temp_path_unfold. intros. by rewrite bool_decide_eq_false_2. Qed.
End paths.

(* ===================================================================== *)
(** * Rows: selection and projection                                      *)
(* ===================================================================== *)

Section rows.
Implicit Types (row : row_dict) (reader : list row_dict) (key : pystr).

Lemma iso_country_kept : str "iso_country" ∉ columns_to_remove.
Proof. apply (bool_decide_unpack _). by vm_compute. Qed.

Lemma icao_code_kept : str "icao_code" ∉ columns_to_remove.
Proof. apply (bool_decide_unpack _). by vm_compute. Qed.

(** Projection leaves every column outside the removal set as it was. *)
Lemma cells_filtered_row row key :
  key ∉ columns_to_remove → cells (filtered_row row) !! key = cells row !! key.
Proof.
  intros Hkey. simpl. rewrite map_lookup_filter.
  destruct (cells row !! key); simpl; [|done].
  by rewrite option_guard_True.
Qed.

Lemma cells_filtered_row_removed row key :
  key ∈ columns_to_remove → cells (filtered_row row) !! key = None.
Proof.
  intros Hkey. simpl. apply map_lookup_filter_None. right.
  intros v _ Hn. by apply Hn.
Qed.

Lemma dict_get_filtered_row row key dflt :
  key ∉ columns_to_remove →
  dict_get (filtered_row row) key dflt = dict_get row key dflt.
Proof. intros. unfold dict_get. by rewrite cells_filtered_row. Qed.

Lemma keep_row_filtered_row row : keep_row (filtered_row row) = keep_row row.
Proof.
  unfold keep_row.
  by rewrite !dict_get_filtered_row
    by (apply iso_country_kept || apply icao_code_kept).
Qed.

(** The loop's test agrees with the rule of the specification. *)
Lemma keep_row_true_iff row : keep_row row = Some true ↔ matches_rule row.
Proof.
  unfold keep_row, matches_rule, dict_get. split.
  - intros Hk.
    apply bind_Some in Hk as (iso & Hiso & Hk).
    apply bind_Some in Hk as (icao & Hicao & Hk).
    injection Hk as Hk. apply andb_true_iff in Hk as [H1 H2].
    apply bool_decide_eq_true in H1.
    apply negb_true_iff, bool_decide_eq_false in H2.
    apply fmap_Some in Hiso as (country & Hc & ->).
    apply fmap_Some in Hicao as (code & Hi & ->).
    destruct (cells row !! str "iso_country") as [[country'|]|];
      simplify_eq/=; try (by vm_compute in H1).
    destruct (cells row !! str "icao_code") as [[code'|]|];
      simplify_eq/=; try (by destruct H2).
    by exists country, code.
  - intros (country & code & -> & -> & Hc & Hi). simpl.
    by rewrite bool_decide_eq_true_2, bool_decide_eq_false_2.
Qed.

Lemma keep_row_absent row :
  cells row !! str "iso_country" = None ∨ cells row !! str "icao_code" = None →
  keep_row row ≠ Some true.
Proof.
  intros Habs Hkeep. apply keep_row_true_iff in Hkeep
    as (country & code & Hc & Hi & _). destruct Habs; congruence.
Qed.

(** What the loop has collected when it runs to its end. *)
Lemma select_rows_Some reader filtered_data :
  select_rows reader = Some filtered_data →
  Forall (λ row, is_Some (keep_row row)) reader
  ∧ filtered_data
    = filtered_row <$> filter (λ row, keep_row row = Some true) reader.
Proof.
  revert filtered_data.
  induction reader as [|row reader IH]; intros fd; simpl.
  - intros [= <-]. by split.
  - destruct (keep_row row) as [keep|] eqn:Hk; simpl; [|done].
    destruct (select_rows reader) as [fd'|]; simpl; [|done].
    destruct (IH fd' eq_refl) as [Hall ->]. intros [= <-]. split.
    + constructor; [by rewrite Hk|done].
    + rewrite filter_cons. destruct keep.
      * by rewrite decide_True by done.
      * by rewrite decide_False by (by rewrite Hk).
Qed.

Lemma select_rows_is_Some reader :
  Forall (λ row, is_Some (keep_row row)) reader → is_Some (select_rows reader).
Proof.
  induction 1 as [|row reader [keep Hk] _ [fd Hfd]]; simpl; [done|].
  rewrite Hk, Hfd. simpl. eauto.
Qed.

(** The loop is cut short only by a row on which the test raises. *)
Lemma select_rows_None reader :
  select_rows reader = None → Exists (λ row, keep_row row = None) reader.
Proof.
  induction reader as [|row reader IH]; simpl; [done|].
  destruct (keep_row row) as [keep|] eqn:Hk; simpl; [|by left].
  destruct (select_rows reader); simpl; [done|]. intros _. right. by apply IH.
Qed.

(** A projected row among the collected ones belongs to a row that
    passed the test. *)
Lemma elem_of_select_rows reader filtered_data row :
  select_rows reader = Some filtered_data →
  row ∈ reader →
  filtered_row row ∈ filtered_data ↔ keep_row row = Some true.
Proof.
  intros Hsel Hin. apply select_rows_Some in Hsel as [_ ->].
  rewrite list_elem_of_fmap. split.
  - intros (row' & Heq & Hin').
    apply list_elem_of_filter in Hin' as [Hk _].
    by rewrite <- keep_row_filtered_row, Heq, keep_row_filtered_row.
  - intros Hk. exists row. split; [done|]. by apply list_elem_of_filter.
Qed.
End rows.

(* ===================================================================== *)
(** * The dicts of DictReader                                             *)
(* ===================================================================== *)

Section dict_rows.
Implicit Types (fieldnames row : list pystr) (key : pystr)
  (d : gmap pystr (option pystr)).

Lemma foldl_insert_Some_lookup (l : list (pystr * pystr)) d key v :
  foldl (λ d kv, <[kv.1 := Some kv.2]> d) d l !! key = Some v →
  d !! key = Some v ∨ (key ∈ l.*1 ∧ ∃ s, v = Some s).
Proof.
  revert d. induction l as [|kv l IH]; intros d; simpl; [by left|].
  intros [Hin|[Hin Hv]]%IH.
  - apply lookup_insert_Some in Hin as [[<- <-]|[_ Hin]]; [|by left].
    right. split; [by left|by eexists].
  - right. split; [by right|done].
Qed.

Lemma foldl_insert_None_lookup (l : list pystr) d key v :
  foldl (λ d k, <[k := None]> d) d l !! key = Some v →
  d !! key = Some v ∨ (key ∈ l ∧ v = None).
Proof.
  revert d. induction l as [|k l IH]; intros d; simpl; [by left|].
  intros [Hin|[Hin Hv]]%IH.
  - apply lookup_insert_Some in Hin as [[<- <-]|[_ Hin]]; [|by left].
    right. split; [by left|done].
  - right. split; [by right|done].
Qed.

(** The keys of [dict(zip(keys, vals))] are among [keys], its values are
    strings. *)
Lemma dict_zip_lookup (keys vals : list pystr) key v :
  dict_zip keys vals !! key = Some v → key ∈ keys ∧ ∃ s, v = Some s.
Proof.
  unfold dict_zip. intros [Hin|[Hin Hv]]%foldl_insert_Some_lookup.
  - by rewrite lookup_empty in Hin.
  - split; [|done]. apply list_elem_of_fmap in Hin as ([k x] & -> & Hin).
    by eapply elem_of_zip_l.
Qed.

(** A row dict has no string key outside the header. *)
Lemma DictReader_row_lookup fieldnames row key v :
  cells (DictReader_row fieldnames row) !! key = Some v → key ∈ fieldnames.
Proof.
  unfold DictReader_row. repeat case_match; simpl.
  - by intros [? _]%dict_zip_lookup.
  - intros [[? _]%dict_zip_lookup|[Hin _]]%foldl_insert_None_lookup; [done|].
    by eapply subseteq_drop.
  - by intros [? _]%dict_zip_lookup.
Qed.

Lemma DictReader_row_absent fieldnames row key :
  key ∉ fieldnames → cells (DictReader_row fieldnames row) !! key = None.
Proof.
  intros Hkey. apply eq_None_not_Some. intros [v Hv]. apply Hkey.
  by eapply DictReader_row_lookup.
Qed.

(** A row with as many cells as the header has names: every value is a
    string and nothing is left over. *)
Lemma DictReader_row_rectangular fieldnames row :
  length row = length fieldnames →
  DictReader_row fieldnames row = Row (dict_zip fieldnames row) None.
Proof.
  intros Hlen. unfold DictReader_row. rewrite Hlen.
  by rewrite Nat.ltb_irrefl.
Qed.

Lemma rest_DictReader_row fieldnames row :
  (length row ≤ length fieldnames)%nat →
  rest (DictReader_row fieldnames row) = None.
Proof.
  intros Hlen. unfold DictReader_row.
  destruct (Nat.ltb_spec (length fieldnames) (length row)); [lia|].
  by case_match.
Qed.

Lemma keep_row_rectangular fieldnames row :
  length row = length fieldnames →
  is_Some (keep_row (DictReader_row fieldnames row)).
Proof.
  intros Hlen. rewrite DictReader_row_rectangular by done.
  assert (∀ key, ∃ s, dict_get (Row (dict_zip fieldnames row) None) key []
                      = Some s) as Hget.
  { intros key. unfold dict_get. simpl.
    destruct (dict_zip fieldnames row !! key) as [v|] eqn:Hv; simpl; [|eauto].
    apply dict_zip_lookup in Hv as [_ [s ->]]. eauto. }
  unfold keep_row.
  destruct (Hget (str "iso_country")) as [c ->].
  destruct (Hget (str "icao_code")) as [i ->]. simpl. eauto.
Qed.

(** The writer accepts the projection of any row that is not longer than
    the header. *)
Lemma wrong_fields_filtered_row fieldnames row :
  (length row ≤ length fieldnames)%nat →
  wrong_fields (filter (λ f, f ∉ columns_to_remove) fieldnames)
    (filtered_row (DictReader_row fieldnames row)) = false.
Proof.
  intros Hlen. unfold wrong_fields. simpl.
  rewrite rest_DictReader_row by done.
  rewrite bool_decide_eq_false_2 by (by intros [? ?]). simpl.
  apply negb_false_iff, bool_decide_eq_true.
  intros key [v Hv]%elem_of_dom.
  apply map_lookup_filter_Some in Hv as [Hv Hkey]. simpl in Hkey.
  apply elem_of_list_to_set, list_elem_of_filter. split; [done|].
  by eapply DictReader_row_lookup.
Qed.
End dict_rows.

(* ===================================================================== *)
(** * Writing the output                                                  *)
(* ===================================================================== *)

Section writer.
Implicit Types (fieldnames : list pystr) (d : row_dict)
  (rowdicts : list row_dict).

Lemma dict_to_list_Some fieldnames d flds :
  dict_to_list fieldnames d = Some flds →
  csv_writerow flds = row_line fieldnames d.
Proof.
  unfold dict_to_list, row_line. destruct (wrong_fields _ _); [done|].
  by intros [= <-].
Qed.

(** The rows written are a leading part of the rows handed over: all of
    them when the call returns, those before the first offending row
    when it raises. *)
Lemma writerows_written fieldnames rowdicts ok body :
  writerows fieldnames rowdicts = (ok, body) →
  ∃ written,
    written `prefix_of` rowdicts
    ∧ body = concat (row_line fieldnames <$> written)
    ∧ (ok = true → written = rowdicts)
    ∧ (ok = false →
       ∃ d, written ++ [d] `prefix_of` rowdicts
            ∧ wrong_fields fieldnames d = true).
Proof.
  revert ok body.
  induction rowdicts as [|d ds IH]; intros ok body; simpl.
  - intros [= <- <-]. exists []. by repeat split.
  - destruct (dict_to_list fieldnames d) as [flds|] eqn:Hd.
    + destruct (writerows fieldnames ds) as [ok' out].
      intros [= <- <-].
      destruct (IH ok' out eq_refl) as (w & Hpre & -> & Hall & Hbad).
      exists (d :: w). rewrite (dict_to_list_Some _ _ _ Hd).
      split_and!; [by apply prefix_cons|done|by intros ->%Hall|].
      intros (d' & Hpre' & Hd')%Hbad. exists d'. split; [|done].
      by apply (prefix_cons d).
    + intros [= <- <-]. exists []. split_and!; [apply prefix_nil|done|done|].
      intros _. exists d. split; [by apply prefix_cons, prefix_nil|].
      unfold dict_to_list in Hd. by destruct (wrong_fields _ _).
Qed.

Lemma writerows_all fieldnames rowdicts :
  Forall (λ d, wrong_fields fieldnames d = false) rowdicts →
  writerows fieldnames rowdicts
  = (true, concat (row_line fieldnames <$> rowdicts)).
Proof.
  induction 1 as [|d ds Hd _ IH]; simpl; [done|].
  unfold dict_to_list. rewrite Hd, IH. done.
Qed.

(** The header line comes first in whatever is written. *)
Lemma write_filtered_header fieldnames rowdicts :
  ∃ body,
    (write_filtered fieldnames rowdicts).2
    = encode_utf8 (csv_writerow (Some <$> fieldnames) ++ body).
Proof.
  unfold write_filtered.
  destruct (writerows fieldnames rowdicts) as [ok body]. by exists body.
Qed.

Lemma write_filtered_true fieldnames rowdicts :
  (write_filtered fieldnames rowdicts).1 = true →
  (write_filtered fieldnames rowdicts).2
  = encode_utf8 (writeheader fieldnames
                 ++ concat (row_line fieldnames <$> rowdicts)).
Proof.
  unfold write_filtered.
  destruct (writerows fieldnames rowdicts) as [ok body] eqn:Hw. simpl.
  intros ->. apply writerows_written in Hw as (w & _ & -> & Hall & _).
  by rewrite (Hall eq_refl).
Qed.
End writer.

(* ===================================================================== *)
(** * filter_csv and run_once on the file system                          *)
(* ===================================================================== *)

(** Reads a path back from a file system built by inserts and deletes. *)
Ltac fs_lookup :=
  repeat first
    [ rewrite lookup_insert_eq
    | rewrite lookup_delete_eq
    | rewrite lookup_insert_ne by done
    | rewrite lookup_delete_ne by done ].

Section pipeline.
Implicit Types (fs : filesystem) (get : pystr → response)
  (input_path output_path tp : path).

Lemma header_minus_filter (fieldnames : list pystr) :
  header_minus columns_to_remove fieldnames
    (filter (λ f, f ∉ columns_to_remove) fieldnames).
Proof.
  induction fieldnames as [|f h IH]; [constructor|].
  rewrite filter_cons. destruct (decide (f ∈ columns_to_remove)) as [Hf|Hf].
  - rewrite decide_False by (by intros Hn). by apply hm_drop.
  - rewrite decide_True by done. by apply hm_keep.
Qed.

(** [header_minus] pins its result down. *)
Lemma header_minus_unique R (h h1 h2 : list pystr) :
  header_minus R h h1 → header_minus R h h2 → h1 = h2.
Proof.
  intros H1. revert h2.
  induction H1; intros h2 H2; inversion H2; subst; try done; auto.
  f_equal. auto.
Qed.

Lemma header_minus_sublist R (h h' : list pystr) :
  header_minus R h h' → h' `sublist_of` h.
Proof. induction 1; by constructor. Qed.

Lemma header_minus_elem_of R (h h' : list pystr) f :
  header_minus R h h' → f ∈ h' ↔ f ∈ h ∧ f ∉ R.
Proof.
  induction 1 as [|g h h' Hg _ IH|g h h' Hg _ IH];
    rewrite ?elem_of_nil, ?elem_of_cons, ?IH; intuition congruence.
Qed.

Lemma filter_csv_read_failed input_path output_path fs :
  fs !! input_path ≫= read_and_select = None →
  filter_csv input_path output_path fs = (false, fs).
Proof. unfold filter_csv. by intros ->. Qed.

Lemma filter_csv_written input_path output_path fs raw hdr data :
  fs !! input_path = Some raw →
  read_and_select raw = Some (hdr, data) →
  filter_csv input_path output_path fs
  = ((write_filtered hdr data).1,
     <[output_path := (write_filtered hdr data).2]> fs).
Proof.
  intros Hraw Hsel. unfold filter_csv. rewrite Hraw. simpl. rewrite Hsel.
  by destruct (write_filtered hdr data).
Qed.

(** A file without any row has no header: the function returns False
    before it opens the output. *)
Lemma filter_csv_no_header input_path output_path fs raw :
  fs !! input_path = Some raw →
  (text_lines raw ≫= csv_reader) = Some [] →
  filter_csv input_path output_path fs = (false, fs).
Proof.
  intros Hraw Hrows. apply filter_csv_read_failed. rewrite Hraw. simpl.
  unfold read_and_select, open_reader.
  destruct (text_lines raw) as [lines|]; simpl in *; [|done].
  by rewrite Hrows.
Qed.

(** [run_once] with its two callees spelt out by case. *)
Lemma run_once_unfold get output_path fs :
  run_once get output_path fs =
    match temp_path output_path with
    | None => (Raised, fs)
    | Some tp =>
        match get AIRPORTS_CSV_URL with
        | RequestError => (Returned false, fs)
        | Body chunks false =>
            (Returned false, <[tp := written_chunks chunks]> fs)
        | Body chunks true =>
            match read_and_select (written_chunks chunks) with
            | None => (Returned false, delete tp fs)
            | Some (hdr, data) =>
                (Returned (write_filtered hdr data).1,
                 delete tp
                   (<[output_path := (write_filtered hdr data).2]> fs))
            end
        end
    end.
Proof.
  unfold run_once.
  destruct (temp_path output_path) as [tp|] eqn:Htp; [|done].
  apply temp_path_ne in Htp.
  unfold download_file.
  destruct (get AIRPORTS_CSV_URL) as [|chunks [|]]; simpl; [done| |done].
  destruct (read_and_select (written_chunks chunks)) as [[hdr data]|] eqn:Hsel.
  - rewrite (filter_csv_written _ _ _ (written_chunks chunks) hdr data);
      [|by rewrite lookup_insert_eq|done].
    rewrite (insert_insert_ne _ output_path tp) by done.
    rewrite delete_insert_eq.
    by destruct (write_filtered hdr data).1.
  - rewrite filter_csv_read_failed
      by (by rewrite lookup_insert_eq; simpl; rewrite Hsel).
    simpl. by rewrite delete_insert_eq.
Qed.

(** [run_once] returns whenever the output path has a name. *)
Lemma run_once_returns get output_path fs :
  is_Some (temp_path output_path) →
  ∃ ok, (run_once get output_path fs).1 = Returned ok.
Proof.
  intros [tp Htp]. rewrite run_once_unfold, Htp.
  destruct (get AIRPORTS_CSV_URL) as [|chunks [|]]; simpl; eauto.
  destruct (read_and_select _) as [[hdr data]|]; simpl; eauto.
Qed.

(** A run touches two files at most: the output and its staging file. *)
Lemma run_once_frame get output_path fs tp p :
  temp_path output_path = Some tp → p ≠ tp → p ≠ output_path →
  (run_once get output_path fs).2 !! p = fs !! p.
Proof.
  intros Htp Hp1 Hp2. rewrite run_once_unfold, Htp.
  destruct (get AIRPORTS_CSV_URL) as [|chunks [|]]; simpl; [done| |].
  - destruct (read_and_select _) as [[hdr data]|]; simpl; by fs_lookup.
  - by fs_lookup.
Qed.
End pipeline.

(* ===================================================================== *)
(** * What filter_csv reads and writes                                    *)
(* ===================================================================== *)

Section filter_properties.
Implicit Types (fs : filesystem) (input_path output_path : path).

(** What a call that returns True has read and written. *)
Lemma filter_csv_true_inv input_path output_path fs fs' :
  filter_csv input_path output_path fs = (true, fs') →
  ∃ raw fieldnames reader filtered_data,
    fs !! input_path = Some raw
    ∧ open_reader raw = Some (fieldnames, reader)
    ∧ select_rows reader = Some filtered_data
    ∧ fs' =
        let output_fieldnames :=
          filter (λ f, f ∉ columns_to_remove) fieldnames in
        <[output_path :=
            encode_utf8
              (writeheader output_fieldnames
               ++ concat (row_line output_fieldnames <$> filtered_data))]> fs.
Proof.
  unfold filter_csv. destruct (fs !! input_path) as [raw|]; simpl; [|done].
  destruct (read_and_select raw) as [[hdr data]|] eqn:Hsel; [|done].
  pose proof (write_filtered_true hdr data) as Hw.
  destruct (write_filtered hdr data) as [ok content]. intros [= -> <-].
  simpl in Hw. rewrite (Hw eq_refl). clear Hw.
  unfold read_and_select in Hsel.
  destruct (open_reader raw) as [[fieldnames reader]|] eqn:Hopen;
    simpl in Hsel; [|done].
  destruct (select_rows reader) as [fd|] eqn:Hfd; simpl in Hsel; [|done].
  injection Hsel as <- <-. by exists raw, fieldnames, reader, fd.
Qed.

Lemma filter_none {A} (P : A → Prop) `{!∀ x, Decision (P x)} (l : list A) :
  Forall (λ x, ¬ P x) l → filter P l = [].
Proof.
  induction 1 as [|x l Hx _ IH]; [done|]. by rewrite filter_cons_False.
Qed.

(** Positions in a sublist keep their order in the full list. *)
Lemma sublist_lookup_order {A} (l1 l2 : list A) :
  l1 `sublist_of` l2 →
  ∀ (i j : nat) a b, (i < j)%nat → l1 !! i = Some a → l1 !! j = Some b →
  ∃ i' j' : nat, (i' < j')%nat ∧ l2 !! i' = Some a ∧ l2 !! j' = Some b.
Proof.
  induction 1 as [|x l1 l2 Hsub IH|x l1 l2 Hsub IH]; intros i j a b Hij Ha Hb.
  - by rewrite lookup_nil in Ha.
  - destruct j as [|j]; [lia|]. destruct i as [|i]; simpl in *.
    + assert (b ∈ l2) as [j' Hj']%list_elem_of_lookup.
      { eapply elem_of_sublist; [|done]. by eapply list_elem_of_lookup_2. }
      exists 0%nat, (S j'). split_and!; [lia|done|done].
    + destruct (IH i j a b) as (i' & j' & ? & ? & ?); [lia|done|done|].
      exists (S i'), (S j'). split_and!; [lia|done|done].
  - destruct (IH i j a b) as (i' & j' & ? & ? & ?); [done..|].
    exists (S i'), (S j'). split_and!; [lia|done|done].
Qed.
End filter_properties.

Section tables.
Implicit Types (fs : filesystem) (input_path output_path : path)
  (fieldnames : list pystr) (body : list (list pystr)).

Lemma open_reader_Some raw fieldnames reader :
  open_reader raw = Some (fieldnames, reader) →
  ∃ lines body,
    text_lines raw = Some lines
    ∧ csv_reader lines = Some (fieldnames :: body)
    ∧ reader = DictReader_row fieldnames <$> filter (λ row, row ≠ []) body.
Proof.
  unfold open_reader.
  destruct (text_lines raw) as [lines|]; simpl; [|done].
  destruct (csv_reader lines) as [[|hdr body]|] eqn:Hrows; simpl;
    [done| |done].
  intros [= <- <-]. by exists lines, body.
Qed.

(** A rectangular table (every row blank or as long as the header) is
    filtered without an error: with a disk that serves the write,
    [filter_csv] returns True. *)
Lemma filter_csv_rectangular input_path output_path fs raw lines
    fieldnames body :
  fs !! input_path = Some raw →
  text_lines raw = Some lines →
  csv_reader lines = Some (fieldnames :: body) →
  Forall (λ row, row = [] ∨ length row = length fieldnames) body →
  (filter_csv input_path output_path fs).1 = true.
Proof.
  intros Hraw Hlines Hrows Hrect.
  set (reader := DictReader_row fieldnames <$> filter (λ row, row ≠ []) body).
  assert (Forall (λ row, length row = length fieldnames)
            (filter (λ row, row ≠ []) body)) as Hbody.
  { apply list.Forall_forall. intros row [Hne Hin]%list_elem_of_filter.
    rewrite list.Forall_forall in Hrect. by destruct (Hrect row Hin). }
  destruct (select_rows_is_Some reader) as [fd Hfd].
  { apply Forall_fmap. eapply list.Forall_impl; [exact Hbody|].
    intros row Hlen. by apply keep_row_rectangular. }
  rewrite (filter_csv_written _ _ _ raw
             (filter (λ f, f ∉ columns_to_remove) fieldnames) fd); [|done|].
  - simpl. unfold write_filtered. rewrite writerows_all; [done|].
    apply select_rows_Some in Hfd as [_ ->].
    apply Forall_fmap, list.Forall_forall.
    intros d [_ (row & -> & Hin)%list_elem_of_fmap]%list_elem_of_filter.
    rewrite list.Forall_forall in Hbody. simpl.
    apply wrong_fields_filtered_row. by rewrite (Hbody row Hin).
  - unfold read_and_select, open_reader. rewrite Hlines. simpl.
    rewrite Hrows. simpl. fold reader. by rewrite Hfd.
Qed.

(** A header without the iso_country column or without the icao_code
    column: no row is selected, and the output is the projected header
    alone. *)
Lemma filter_csv_missing_column input_path output_path fs raw
    fieldnames reader :
  fs !! input_path = Some raw →
  open_reader raw = Some (fieldnames, reader) →
  str "iso_country" ∉ fieldnames ∨ str "icao_code" ∉ fieldnames →
  is_Some (select_rows reader) →
  filter_csv input_path output_path fs
  = (true,
     <[output_path :=
         encode_utf8
           (writeheader (filter (λ f, f ∉ columns_to_remove) fieldnames))]>
       fs).
Proof.
  intros Hraw Hopen Hmiss [fd Hfd].
  rewrite (filter_csv_written _ _ _ raw
             (filter (λ f, f ∉ columns_to_remove) fieldnames) fd); [|done|];
    [|by unfold read_and_select; rewrite Hopen; simpl; rewrite Hfd].
  apply open_reader_Some in Hopen as (lines & body & _ & _ & ->).
  apply select_rows_Some in Hfd as [_ ->].
  rewrite (filter_none (λ row, keep_row row = Some true));
    [unfold write_filtered; simpl; by rewrite app_nil_r|].
  apply Forall_fmap, list.Forall_forall. intros row _. simpl.
  apply keep_row_absent.
  destruct Hmiss; [left|right]; by apply DictReader_row_absent.
Qed.

(** An empty header (the table starts with a blank line): every row lacks
    both columns, so the call succeeds and the output is a lone line
    terminator. *)
Lemma filter_csv_empty_header input_path output_path fs raw reader :
  fs !! input_path = Some raw →
  open_reader raw = Some ([], reader) →
  filter_csv input_path output_path fs
  = (true, <[output_path := [CR; LF]]> fs).
Proof.
  intros Hraw Hopen.
  rewrite (filter_csv_missing_column _ _ _ raw [] reader); [done..| |].
  - left. apply not_elem_of_nil.
  - apply open_reader_Some in Hopen as (lines & body & _ & _ & ->).
    apply select_rows_is_Some, Forall_fmap, list.Forall_forall.
    intros row _. simpl. unfold keep_row, dict_get.
    rewrite !DictReader_row_absent by apply not_elem_of_nil. simpl. eauto.
Qed.
End tables.

(* ===================================================================== *)
(** * The filter: selection, header, order                                *)
(* ===================================================================== *)

Section selection.
Implicit Types (row : row_dict) (reader kept : list row_dict).

(** The rows the loop collects are the rows the rule selects. *)
Lemma selected_filter reader :
  selected reader (filter (λ row, keep_row row = Some true) reader).
Proof.
  induction reader as [|row reader IH]; [constructor|].
  rewrite filter_cons. destruct (decide (keep_row row = Some true)) as [Hk|Hk].
  - apply sel_keep; [by apply keep_row_true_iff|done].
  - apply sel_drop; [by rewrite <- keep_row_true_iff|done].
Qed.

(** [selected] pins its result down. *)
Lemma selected_unique reader kept1 kept2 :
  selected reader kept1 → selected reader kept2 → kept1 = kept2.
Proof.
  intros H1. revert kept2.
  induction H1; intros kept2 H2; inversion H2; subst; try done; auto.
  f_equal. auto.
Qed.

Lemma selected_sublist reader kept : selected reader kept → kept `sublist_of` reader.
Proof. induction 1; by constructor. Qed.

Lemma selected_elem_of reader kept row :
  selected reader kept → row ∈ kept ↔ row ∈ reader ∧ matches_rule row.
Proof.
  induction 1 as [|r reader kept Hr _ IH|r reader kept Hr _ IH];
    rewrite ?elem_of_nil, ?elem_of_cons, ?IH; [tauto| |];
    split; intros H; destruct_and?; destruct_or?; subst; tauto.
Qed.
End selection.

(** C2, as stated, fails.  The third data row of the sample is a US
    airport with a surplus cell: the writer raises on it, after the
    header and the first row have been written.  [filter_csv] returns
    False, and the US airport K3 of the fourth row, which matches the
    rule, is not in the output file. *)
Lemma failed_filter_drops_match :
  let row :=
    Row (dict_zip [str "iso_country"; str "icao_code"] [str "US"; str "K3"])
      None in
  let content :=
    str "iso_country,icao_code" ++ Sample.crlf ++ str "US,K1" ++ Sample.crlf in
  open_reader Sample.surplus_row
  = Some ([str "iso_country"; str "icao_code"], Sample.surplus_reader)
  ∧ Sample.surplus_reader !! 3%nat = Some row
  ∧ matches_rule row
  ∧ filter_csv Sample.staging Sample.output
      (Sample.fs_staged Sample.surplus_row)
    = (false,
       <[Sample.output := content]> (Sample.fs_staged Sample.surplus_row))
  ∧ Forall (λ d, cells d !! str "icao_code" ≠ Some (Some (str "K3")))
      (default [] (snd <$> open_reader content)).
Proof.
  split_and!.
  - by vm_compute.
  - by vm_compute.
  - exists (str "US"), (str "K3"). split_and!; by vm_compute.
  - reflexivity.
  - vm_compute. repeat constructor. discriminate.
Qed.

(** C2, amended.  The rows behind the lines [filter_csv] writes are
    rows of the input that match the rule: the country value trims to
    US and the code value is not empty after trimming.  When the call
    returns True they are all of them, each as often as the input has it
    and in its order, so that nothing that matches is dropped and nothing
    else is kept.  When it returns False the output file is either
    untouched or holds the header and a leading part of these rows. *)
Theorem filter_csv_selection (input_path output_path : path)
    (fs fs' : filesystem) (ok : bool) :
  filter_csv input_path output_path fs = (ok, fs') →
  ok = false ∧ fs' = fs
  ∨ ∃ raw fieldnames reader kept written,
      fs !! input_path = Some raw
      ∧ open_reader raw = Some (fieldnames, reader)
      ∧ selected reader kept
      ∧ written `prefix_of` kept
      ∧ (ok = true → written = kept)
      ∧ fs' = <[output_path :=
                  let output_fieldnames :=
                    filter (λ f, f ∉ columns_to_remove) fieldnames in
                  encode_utf8
                    (writeheader output_fieldnames
                     ++ concat ((λ row, row_line output_fieldnames
                                          (filtered_row row))
                                  <$> written))]> fs.
Proof.
  unfold filter_csv.
  destruct (fs !! input_path) as [raw|] eqn:Hraw; simpl;
    [|intros [= <- <-]; by left].
  destruct (read_and_select raw) as [[hdr data]|] eqn:Hsel;
    [|intros [= <- <-]; by left].
  unfold read_and_select in Hsel.
  destruct (open_reader raw) as [[fieldnames reader]|] eqn:Hopen;
    simpl in Hsel; [|done].
  destruct (select_rows reader) as [fd|] eqn:Hfd; simpl in Hsel; [|done].
  injection Hsel as <- <-. apply select_rows_Some in Hfd as [_ ->].
  unfold write_filtered.
  destruct (writerows _ _) as [ok' text] eqn:Hw. intros [= <- <-].
  apply writerows_written in Hw as (w & [rest Hpre] & -> & Hall & _).
  set (kept := filter (λ row, keep_row row = Some true) reader) in *.
  right. exists raw, fieldnames, reader, kept, (take (length w) kept).
  assert (w = filtered_row <$> take (length w) kept) as Hw.
  { by rewrite fmap_take, Hpre, take_app_length. }
  split_and!; [done|done|apply selected_filter|apply prefix_take| |].
  - intros Hok. specialize (Hall Hok). subst w.
    by rewrite length_fmap, firstn_all.
  - simpl. rewrite Hw at 1. by rewrite <- list_fmap_compose.
Qed.

(** The sample table of three airports, staged and filtered. *)
Lemma filter_csv_selection_witness :
  filter_csv Sample.staging Sample.output (Sample.fs_staged Sample.airports)
  = (true, <[Sample.output := Sample.airports_filtered]>
             (Sample.fs_staged Sample.airports))
  ∧ (true = false
     ∧ <[Sample.output := Sample.airports_filtered]>
         (Sample.fs_staged Sample.airports)
       = Sample.fs_staged Sample.airports
     ∨ ∃ raw fieldnames reader kept written,
         Sample.fs_staged Sample.airports !! Sample.staging = Some raw
         ∧ open_reader raw = Some (fieldnames, reader)
         ∧ selected reader kept
         ∧ written `prefix_of` kept
         ∧ (true = true → written = kept)
         ∧ <[Sample.output := Sample.airports_filtered]>
             (Sample.fs_staged Sample.airports)
           = <[Sample.output :=
                 let output_fieldnames :=
                   filter (λ f, f ∉ columns_to_remove) fieldnames in
                 encode_utf8
                   (writeheader output_fieldnames
                    ++ concat ((λ row, row_line output_fieldnames
                                         (filtered_row row))
                                 <$> written))]>
               (Sample.fs_staged Sample.airports)).
Proof.
  assert (filter_csv Sample.staging Sample.output
            (Sample.fs_staged Sample.airports)
          = (true, <[Sample.output := Sample.airports_filtered]>
                     (Sample.fs_staged Sample.airports))) as Hrun
    by reflexivity.
  split; [exact Hrun|]. exact (filter_csv_selection _ _ _ _ _ Hrun).
Defined.

(** C3.  Whenever [filter_csv] gets to write its output (the input was
    read and the row loop ran to its end), the file begins with the line
    of a header that is the original header with exactly the names of the
    removal set struck out, the remaining names in their original order. *)
Theorem filter_csv_header (input_path output_path : path) (fs : filesystem)
    (raw : bytes) (fieldnames : list pystr) (reader : list row_dict) :
  fs !! input_path = Some raw →
  open_reader raw = Some (fieldnames, reader) →
  is_Some (select_rows reader) →
  ∃ ok output_fieldnames body,
    filter_csv input_path output_path fs
    = (ok, <[output_path :=
               encode_utf8 (csv_writerow (Some <$> output_fieldnames) ++ body)]>
             fs)
    ∧ header_minus columns_to_remove fieldnames output_fieldnames
    ∧ output_fieldnames `sublist_of` fieldnames
    ∧ ∀ f, f ∈ output_fieldnames ↔ f ∈ fieldnames ∧ f ∉ columns_to_remove.
Proof.
  intros Hraw Hopen [fd Hfd].
  set (hdr := filter (λ f, f ∉ columns_to_remove) fieldnames).
  destruct (write_filtered_header hdr fd) as [body Hbody].
  exists (write_filtered hdr fd).1, hdr, body.
  pose proof (header_minus_filter fieldnames) as Hminus.
  split_and!; [|done|by eapply header_minus_sublist|].
  - rewrite <- Hbody. apply (filter_csv_written _ _ _ raw); [done|].
    unfold read_and_select. rewrite Hopen. simpl. by rewrite Hfd.
  - intros f. by apply header_minus_elem_of.
Qed.

(** The header id, name, iso_country, icao_code, home_link of the sample
    table. *)
Lemma filter_csv_header_witness :
  ∃ ok output_fieldnames body,
    filter_csv Sample.staging Sample.output (Sample.fs_staged Sample.airports)
    = (ok, <[Sample.output :=
               encode_utf8 (csv_writerow (Some <$> output_fieldnames) ++ body)]>
             (Sample.fs_staged Sample.airports))
    ∧ header_minus columns_to_remove
        [str "id"; str "name"; str "iso_country"; str "icao_code";
         str "home_link"]
        output_fieldnames
    ∧ output_fieldnames
        `sublist_of` [str "id"; str "name"; str "iso_country";
                      str "icao_code"; str "home_link"]
    ∧ ∀ f, f ∈ output_fieldnames ↔
           f ∈ [str "id"; str "name"; str "iso_country"; str "icao_code";
                str "home_link"]
           ∧ f ∉ columns_to_remove.
Proof.
  apply (filter_csv_header Sample.staging Sample.output
           (Sample.fs_staged Sample.airports) Sample.airports _
           Sample.airports_reader).
  - reflexivity.
  - vm_compute. reflexivity.
  - vm_compute. eexists. reflexivity.
Defined.

(** The header of the specification's example, without the removed
    columns. *)
Example header_example :
  filter (λ f, f ∉ columns_to_remove)
    [str "id"; str "name"; str "iso_country"; str "icao_code";
     str "home_link"]
  = [str "name"; str "iso_country"; str "icao_code"].
Proof. by vm_compute. Qed.

(** C4.  When [filter_csv] succeeds, the rows behind the lines of the
    output are a sublist of the rows of the input: they come in the order
    in which the input has them, so of two surviving rows the one earlier
    in the raw file is the one earlier in the filtered file. *)
Theorem filter_csv_keeps_order (input_path output_path : path)
    (fs fs' : filesystem) :
  filter_csv input_path output_path fs = (true, fs') →
  ∃ raw fieldnames reader kept,
    fs !! input_path = Some raw
    ∧ open_reader raw = Some (fieldnames, reader)
    ∧ kept `sublist_of` reader
    ∧ fs' !! output_path
      = Some (let output_fieldnames :=
                filter (λ f, f ∉ columns_to_remove) fieldnames in
              encode_utf8
                (writeheader output_fieldnames
                 ++ concat ((λ row, row_line output_fieldnames (filtered_row row))
                              <$> kept)))
    ∧ ∀ (i j : nat) a b, (i < j)%nat →
        kept !! i = Some a → kept !! j = Some b →
        ∃ i' j' : nat,
          (i' < j')%nat ∧ reader !! i' = Some a ∧ reader !! j' = Some b.
Proof.
  intros (raw & fieldnames & reader & fd & Hraw & Hopen & Hsel & ->)
    %filter_csv_true_inv.
  apply select_rows_Some in Hsel as [_ ->].
  exists raw, fieldnames, reader,
    (filter (λ row, keep_row row = Some true) reader).
  assert (filter (λ row, keep_row row = Some true) reader `sublist_of` reader)
    as Hsub by apply sublist_filter.
  split_and!; [done|done|done| |].
  - rewrite lookup_insert_eq. simpl. by rewrite <- list_fmap_compose.
  - by apply sublist_lookup_order.
Qed.

(** The rows A, B, C of the sample table: the output has the line of A
    and no other. *)
Lemma filter_csv_keeps_order_witness :
  filter_csv Sample.staging Sample.output (Sample.fs_staged Sample.airports)
  = (true, <[Sample.output := Sample.airports_filtered]>
             (Sample.fs_staged Sample.airports))
  ∧ ∃ raw fieldnames reader kept,
      Sample.fs_staged Sample.airports !! Sample.staging = Some raw
      ∧ open_reader raw = Some (fieldnames, reader)
      ∧ kept `sublist_of` reader
      ∧ <[Sample.output := Sample.airports_filtered]>
          (Sample.fs_staged Sample.airports) !! Sample.output
        = Some (let output_fieldnames :=
                  filter (λ f, f ∉ columns_to_remove) fieldnames in
                encode_utf8
                  (writeheader output_fieldnames
                   ++ concat ((λ row,
                                row_line output_fieldnames (filtered_row row))
                                <$> kept)))
      ∧ ∀ (i j : nat) a b, (i < j)%nat →
          kept !! i = Some a → kept !! j = Some b →
          ∃ i' j' : nat,
            (i' < j')%nat ∧ reader !! i' = Some a ∧ reader !! j' = Some b.
Proof.
  assert (filter_csv Sample.staging Sample.output
            (Sample.fs_staged Sample.airports)
          = (true, <[Sample.output := Sample.airports_filtered]>
                     (Sample.fs_staged Sample.airports))) as Hrun
    by reflexivity.
  split; [exact Hrun|]. exact (filter_csv_keeps_order _ _ _ _ Hrun).
Defined.

(** The rows of the specification's example: of A (US, K1), B (FR, K2)
    and C (US, no code) only A is published. *)
Example rows_example :
  run_once (Sample.serves Sample.airports) Sample.output Sample.fs_published
  = (Returned true, {[ Sample.output := Sample.airports_filtered ]}).
Proof. reflexivity. Qed.

(** C7, the empty header.  A staged table whose first line is blank has
    the empty list as its field names: [filter_csv] returns True and
    replaces the output by a lone line terminator. *)
Theorem filter_csv_blank_header_succeeds :
  filter_csv Sample.staging Sample.output
    (Sample.fs_staged Sample.blank_first_line)
  = (true,
     <[Sample.output := Sample.crlf]>
       (Sample.fs_staged Sample.blank_first_line)).
Proof. reflexivity. Qed.

(** A missing header: the staged file is empty, the filter returns False
    and writes nothing. *)
Example empty_file_example :
  filter_csv Sample.staging Sample.output (Sample.fs_staged [])
  = (false, Sample.fs_staged []).
Proof. reflexivity. Qed.

(** C10.  A row that has no iso_country key or no icao_code key: the
    lookup with default yields the empty string (it raises nothing), the
    test of the row never comes out true, and the row's projection is not
    among the rows collected by a loop that went over it.  When the other
    of the two fields is not Python's None the test is plainly false. *)
Theorem absent_field_row_excluded (row : row_dict) :
  cells row !! str "iso_country" = None ∨ cells row !! str "icao_code" = None →
  (cells row !! str "iso_country" = None →
     dict_get row (str "iso_country") [] = Some []
     ∧ strip <$> dict_get row (str "iso_country") [] = Some [])
  ∧ (cells row !! str "icao_code" = None →
     dict_get row (str "icao_code") [] = Some []
     ∧ strip <$> dict_get row (str "icao_code") [] = Some [])
  ∧ keep_row row ≠ Some true
  ∧ (cells row !! str "iso_country" ≠ Some None →
     cells row !! str "icao_code" ≠ Some None →
     keep_row row = Some false)
  ∧ ∀ reader filtered_data,
      row ∈ reader → select_rows reader = Some filtered_data →
      filtered_row row ∉ filtered_data.
Proof.
  intros Habs. split_and!.
  - intros H. unfold dict_get. by rewrite H.
  - intros H. unfold dict_get. by rewrite H.
  - by apply keep_row_absent.
  - intros Hc Hi. pose proof (keep_row_absent row Habs) as Hk.
    unfold keep_row, dict_get in *.
    destruct (cells row !! str "iso_country") as [[country|]|];
      destruct (cells row !! str "icao_code") as [[code|]|];
      simpl in *; try done; try (by destruct Habs);
      match goal with
      | |- Some ?b = Some false => by destruct b
      end.
  - intros reader fd Hin Hsel Hfd.
    apply (elem_of_select_rows _ _ _ Hsel Hin) in Hfd.
    by apply (keep_row_absent row).
Qed.

(** A row of a table that has no icao_code column. *)
Lemma absent_field_row_excluded_witness :
  let row := DictReader_row [str "name"; str "iso_country"]
               [str "A"; str "US"] in
  keep_row row ≠ Some true ∧ keep_row row = Some false.
Proof.
  intros row.
  destruct (absent_field_row_excluded row) as (_ & _ & Hnot & Hfalse & _).
  - right. reflexivity.
  - split; [exact Hnot|]. apply Hfalse; by vm_compute.
Defined.

(* ===================================================================== *)
(** * Cycles: what a run leaves on disk                                   *)
(* ===================================================================== *)

Section cycle_properties.
Implicit Types (fs : filesystem) (get : pystr → response)
  (output_path tp : path).

(** Once the download is complete the staging file is gone after the
    run, whether the filter succeeded or not. *)
Lemma run_once_removes_staging get output_path fs tp chunks :
  temp_path output_path = Some tp →
  get AIRPORTS_CSV_URL = Body chunks true →
  (run_once get output_path fs).2 !! tp = None.
Proof.
  intros Htp Hget. rewrite run_once_unfold, Htp, Hget.
  destruct (read_and_select _) as [[hdr data]|]; simpl; by fs_lookup.
Qed.

(** The ways in which the first [with] block gives up. *)
Lemma read_and_select_None raw :
  read_and_select raw = None ↔
    text_lines raw = None
    ∨ (∃ lines, text_lines raw = Some lines ∧ csv_reader lines = None)
    ∨ (text_lines raw ≫= csv_reader) = Some []
    ∨ ∃ fieldnames reader,
        open_reader raw = Some (fieldnames, reader)
        ∧ Exists (λ row, keep_row row = None) reader.
Proof.
  unfold read_and_select, open_reader.
  destruct (text_lines raw) as [lines|]; simpl; [|split; [by left|done]].
  destruct (csv_reader lines) as [rows|] eqn:Hrows; simpl;
    [|split; [right; left; eauto|done]].
  destruct rows as [|fieldnames body]; simpl;
    [split; [by do 2 right; left|done]|].
  set (reader := DictReader_row fieldnames <$> _).
  split.
  - intros Hsel. do 3 right. exists fieldnames, reader. split; [done|].
    apply select_rows_None.
    by destruct (select_rows reader).
  - intros [Hdec|[(lines' & [= <-] & Hcsv)|[Hnone|(fn & rd & Hrd & Hex)]]].
    + done.
    + congruence.
    + congruence.
    + injection Hrd as <- <-.
      destruct (select_rows reader) as [fd|] eqn:Hfd; [|done].
      apply select_rows_Some in Hfd as [Hall _].
      apply Exists_exists in Hex as (row & Hin & Hrow).
      rewrite Forall_forall in Hall. specialize (Hall row Hin).
      rewrite Hrow in Hall. by destruct Hall.
Qed.
End cycle_properties.

(** C1, as the specification states it, fails.  The source serves a table
    with a US row that has one cell more than the header: the filter
    selects the row, the writer refuses it after the output file has been
    opened and the header written, the run returns False, and the
    dataset published before is gone. *)
Lemma failed_filter_overwrites_published :
  (run_once (Sample.serves Sample.long_row) Sample.output
     Sample.fs_published).1 = Returned false
  ∧ Sample.fs_published !! Sample.output = Some Sample.published
  ∧ (run_once (Sample.serves Sample.long_row) Sample.output
       Sample.fs_published).2 !! Sample.output
    = Some (str "iso_country,icao_code" ++ Sample.crlf)
  ∧ (run_once (Sample.serves Sample.long_row) Sample.output
       Sample.fs_published).2 !! Sample.output
    ≠ Sample.fs_published !! Sample.output.
Proof. split_and!; [by vm_compute..|]. by vm_compute. Qed.

(** C1, as the code has it.  A run that returns False leaves the
    published file as it was when the fetch failed, and when the filter
    gave up before opening the output file.  When the filter is stopped
    while writing rows, the output path holds what was written up to
    there: the header line and the lines of the rows before the one that
    the writer refused. *)
Theorem run_once_failure_published (get : pystr → response)
    (output_path : path) (fs fs' : filesystem) :
  run_once get output_path fs = (Returned false, fs') →
  ((∀ chunks, get AIRPORTS_CSV_URL ≠ Body chunks true) →
     fs' !! output_path = fs !! output_path)
  ∧ (∀ chunks,
       get AIRPORTS_CSV_URL = Body chunks true →
       read_and_select (written_chunks chunks) = None →
       fs' !! output_path = fs !! output_path)
  ∧ (∀ chunks hdr data,
       get AIRPORTS_CSV_URL = Body chunks true →
       read_and_select (written_chunks chunks) = Some (hdr, data) →
       ∃ written d,
         written ++ [d] `prefix_of` data
         ∧ wrong_fields hdr d = true
         ∧ fs' !! output_path
           = Some (encode_utf8
                     (writeheader hdr ++ concat (row_line hdr <$> written)))).
Proof.
  rewrite run_once_unfold.
  destruct (temp_path output_path) as [tp|] eqn:Htp; [|done].
  pose proof (temp_path_ne _ _ Htp) as Hne.
  destruct (get AIRPORTS_CSV_URL) as [|chunks [|]] eqn:Hget.
  - intros [= <-]. split_and!; [done|done..].
  - destruct (read_and_select (written_chunks chunks))
      as [[hdr data]|] eqn:Hsel.
    + intros [= Hok <-]. split_and!.
      * intros Hno. by destruct (Hno chunks).
      * intros chunks' [= <-] Hnone. congruence.
      * intros chunks' hdr' data' [= <-] Hsome.
        rewrite Hsel in Hsome. injection Hsome as <- <-.
        unfold write_filtered in *.
        destruct (writerows hdr data) as [ok body] eqn:Hw. simpl in Hok.
        subst ok. apply writerows_written in Hw
          as (written & _ & -> & _ & Hbad).
        destruct (Hbad eq_refl) as (d & Hpre & Hd).
        exists written, d. split_and!; [done|done|]. by fs_lookup.
    + intros [= <-]. split_and!.
      * by fs_lookup.
      * intros. by fs_lookup.
      * intros chunks' hdr' data' [= <-] Hsome. congruence.
  - intros [= <-]. split_and!.
    + by fs_lookup.
    + intros chunks' [=].
    + intros chunks' hdr' data' [=].
Qed.

(** The source cannot be reached: the run returns False and the
    published file is the one of before. *)
Lemma run_once_failure_published_witness :
  run_once Sample.unreachable Sample.output Sample.fs_published
  = (Returned false, Sample.fs_published)
  ∧ Sample.fs_published !! Sample.output = Sample.fs_published !! Sample.output.
Proof.
  assert (run_once Sample.unreachable Sample.output Sample.fs_published
          = (Returned false, Sample.fs_published)) as Hrun by reflexivity.
  split; [exact Hrun|].
  apply (run_once_failure_published _ _ _ _ Hrun). intros chunks. discriminate.
Defined.

(** C5, the fetch-failure path.  A stream that breaks after some bytes:
    the run returns False and the bytes received so far stay behind in the
    staging file. *)
Theorem run_once_broken_fetch_leaves_staging :
  run_once (Sample.breaks_after (str "id,name,iso_")) Sample.output
    Sample.fs_published
  = (Returned false,
     <[Sample.staging := str "id,name,iso_"]> Sample.fs_published).
Proof. reflexivity. Qed.

(** C8.  A second run on an unchanged source ends as the first did and
    leaves every file, the published one included, as the first run left
    it; and what a successful run publishes depends on the source alone,
    not on what was on disk before. *)
Theorem run_once_idempotent (get : pystr → response) (output_path : path)
    (fs : filesystem) :
  let first := run_once get output_path fs in
  let second := run_once get output_path first.2 in
  second.2 !! output_path = first.2 !! output_path
  ∧ second = first
  ∧ ∀ fs0,
      first.1 = Returned true →
      (run_once get output_path fs0).2 !! output_path
      = first.2 !! output_path.
Proof.
  simpl. rewrite !run_once_unfold.
  destruct (temp_path output_path) as [tp|] eqn:Htp; [|done].
  pose proof (temp_path_ne _ _ Htp) as Hne.
  destruct (get AIRPORTS_CSV_URL) as [|chunks [|]] eqn:Hget; simpl.
  - done.
  - destruct (read_and_select (written_chunks chunks))
      as [[hdr data]|] eqn:Hsel; simpl.
    + assert (delete tp (<[output_path := (write_filtered hdr data).2]>
                (delete tp (<[output_path := (write_filtered hdr data).2]> fs)))
              = delete tp (<[output_path := (write_filtered hdr data).2]> fs))
        as Heq.
      { apply map_eq. intros p.
        destruct (decide (p = tp)) as [->|Hp1]; [by fs_lookup|].
        destruct (decide (p = output_path)) as [->|Hp2]; by fs_lookup. }
      rewrite Heq. split_and!; [done|done|].
      intros fs0 _. rewrite run_once_unfold, Htp, Hget, Hsel. simpl.
      by fs_lookup.
    + rewrite delete_delete_eq. split_and!; [done|done|]. intros fs0 [=].
  - rewrite insert_insert_eq. split_and!; [done|done|]. intros fs0 [=].
Qed.

(* ===================================================================== *)
(** * The staging path                                                    *)
(* ===================================================================== *)

(** C9, as the specification states it, fails.  Two runs for the same
    output path, each with its own answer from the source, put their
    bytes into the same staging file: nothing in its name tells one run
    from another. *)
Lemma two_runs_share_staging_file :
  temp_path Sample.output = Some Sample.staging
  ∧ (run_once (Sample.breaks_after (str "first")) Sample.output
       Sample.fs_published).2 !! Sample.staging = Some (str "first")
  ∧ (run_once (Sample.breaks_after (str "second")) Sample.output
       Sample.fs_published).2 !! Sample.staging = Some (str "second").
Proof. split_and!; by vm_compute. Qed.

(** C9, as the code has it.  The staging path is computed from the output
    path and from nothing else (its last suffix gives way to .tmp.csv):
    it is never the output path itself, every run for that output path
    downloads to it, a broken stream leaves its bytes there, and no run
    touches a file other than these two. *)
Theorem staging_path_determined (output_path tp : path) :
  temp_path output_path = Some tp →
  tp ≠ output_path
  ∧ (∀ get fs,
       run_once get output_path fs
       = let '(ok, fs1) := download_file get AIRPORTS_CSV_URL tp fs in
         if negb ok then (Returned false, fs1)
         else
           let '(ok, fs2) := filter_csv tp output_path fs1 in
           (Returned ok, delete tp fs2))
  ∧ (∀ get fs chunks,
       get AIRPORTS_CSV_URL = Body chunks false →
       (run_once get output_path fs).2 !! tp = Some (written_chunks chunks))
  ∧ (∀ get fs p,
       p ≠ tp → p ≠ output_path →
       (run_once get output_path fs).2 !! p = fs !! p).
Proof.
  intros Htp. split_and!.
  - by apply temp_path_ne.
  - intros get fs. unfold run_once. rewrite Htp.
    destruct (download_file get AIRPORTS_CSV_URL tp fs) as [[|] fs1];
      simpl; [|done].
    by destruct (filter_csv tp output_path fs1) as [[|] fs2].
  - intros get fs chunks Hget. rewrite run_once_unfold, Htp, Hget. simpl.
    by fs_lookup.
  - intros get fs p Hp1 Hp2. by apply (run_once_frame _ _ _ tp).
Qed.

(** The staging path of data/airports.csv is data/airports.tmp.csv. *)
Lemma staging_path_determined_witness :
  Sample.staging ≠ Sample.output
  ∧ ∀ get fs p,
      p ≠ Sample.staging → p ≠ Sample.output →
      (run_once get Sample.output fs).2 !! p = fs !! p.
Proof.
  destruct (staging_path_determined Sample.output Sample.staging)
    as (Hne & _ & _ & Hframe).
  - by vm_compute.
  - split; [exact Hne|exact Hframe].
Defined.

(* ===================================================================== *)
(** * The loop of run_continuously                                        *)
(* ===================================================================== *)

Section scheduler.
Context (env : environment) (output_path : path) (seconds : float).
Hypothesis has_name : is_Some (temp_path output_path).

(** One turn of the loop when [time.sleep] takes the length and nobody
    interrupts the sleep: the sleep, then a cycle that returns, then the
    remaining turns, whatever the cycle returned. *)
Lemma periodic_turn (n k : nat) (fs : filesystem) :
  sleep_raises (monotonic env k) seconds = false →
  ctrl_c env k = false →
  ∃ ok,
    (run_once (remote env k) output_path fs).1 = Returned ok
    ∧ periodic (S n) k env output_path seconds fs
      = (EvSleep seconds :: EvCycle k (Returned ok)
           :: (periodic n (S k) env output_path seconds
                 (run_once (remote env k) output_path fs).2).1,
         (periodic n (S k) env output_path seconds
            (run_once (remote env k) output_path fs).2).2).
Proof.
  intros Hs Hc. simpl. rewrite Hs, Hc.
  destruct (run_once_returns (remote env k) output_path fs has_name)
    as [ok Hok].
  exists ok. split; [done|].
  destruct (run_once (remote env k) output_path fs) as [r fs1].
  simpl in Hok. subst r. simpl.
  by destruct (periodic n (S k) env output_path seconds fs1).
Qed.


(** One more turn adds one sleep and one cycle at the end and changes
    nothing before. *)
Lemma periodic_extends (n k : nat) (fs : filesystem) :
  (∀ j, (k ≤ j ≤ k + n)%nat →
        sleep_raises (monotonic env j) seconds = false
        ∧ ctrl_c env j = false) →
  ∃ next,
    (run_once (remote env (k + n)) output_path
       (periodic n k env output_path seconds fs).2).1 = Returned next
    ∧ (periodic (S n) k env output_path seconds fs).1
      = (periodic n k env output_path seconds fs).1
        ++ [EvSleep seconds; EvCycle (k + n) (Returned next)].
Proof.
  revert k fs. induction n as [|n IH]; intros k fs Hgo.
  - destruct (Hgo k) as [Hs Hc]; [lia|].
    destruct (periodic_turn 0 k fs Hs Hc) as (ok & Hok & ->).
    exists ok. simpl. by rewrite Nat.add_0_r.
  - destruct (Hgo k) as [Hs Hc]; [lia|].
    destruct (periodic_turn (S n) k fs Hs Hc) as (ok & Hok & ->).
    destruct (periodic_turn n k fs Hs Hc) as (ok' & Hok' & ->).
    rewrite Hok in Hok'. injection Hok' as <-.
    destruct (IH (S k) (run_once (remote env k) output_path fs).2)
      as (next & Hnext & Htr); [intros j Hj; apply Hgo; lia|].
    exists next. cbn [fst snd]. rewrite Htr.
    replace (k + S n)%nat with (S k + n)%nat by lia. by split.
Qed.
End scheduler.



(** A source that is never reachable: every cycle fails, and the loop
    carries on, one sleep of the interval between two cycles. *)
Example offline_example :
  (run_continuously 2 Sample.offline Sample.output 24%float
     Sample.fs_published).1
  = [EvCycle 0 (Returned false);
     EvSleep 86400%float; EvCycle 1 (Returned false);
     EvSleep 86400%float; EvCycle 2 (Returned false)].
Proof. reflexivity. Qed.

(** What [time.sleep] does with some lengths: a day is slept; a negative
    length, one that is not a number and one of 2562048 hours raise
    whatever the clock reads; 2562047 hours, just below 2^63 nanoseconds,
    raise on a machine that has been up for an hour. *)
Example sleep_raises_examples :
  sleep_raises (Sample.clock 1) (PrimFloat.mul 24%float 3600%float) = false
  ∧ sleep_raises 0 (PrimFloat.mul (-1)%float 3600%float) = true
  ∧ sleep_raises 0 (PrimFloat.mul nan 3600%float) = true
  ∧ sleep_raises 0 (PrimFloat.mul 2562048%float 3600%float) = true
  ∧ sleep_raises 0 (PrimFloat.mul 2562047%float 3600%float) = false
  ∧ sleep_raises (Sample.clock 0) (PrimFloat.mul 2562047%float 3600%float)
    = true.
Proof. by vm_compute. Qed.

(* ===================================================================== *)
(** * Further properties: download_file                                   *)
(* ===================================================================== *)

(** Leaving out the empty chunks takes no byte away. *)
Lemma written_chunks_concat (chunks : list bytes) :
  written_chunks chunks = concat chunks.
Proof.
  unfold written_chunks. induction chunks as [|chunk chunks IH]; [done|].
  rewrite filter_cons. destruct (decide (chunk ≠ [])) as [Hne|Hnil]; simpl.
  - by rewrite IH.
  - destruct chunk; [done|]. by destruct Hnil.
Qed.

(** X1.  What [download_file] stores depends on the byte stream alone, not
    on how the transport cut it into chunks: two streams that concatenate
    to the same bytes and end the same way give the same result.  The
    file at the output path holds these bytes and nothing of what was
    there before; every other file is left as it was. *)
Theorem download_file_rechunked (get1 get2 : pystr → response)
    (url : pystr) (output_path : path) (fs : filesystem)
    (chunks1 chunks2 : list bytes) (complete : bool) :
  get1 url = Body chunks1 complete →
  get2 url = Body chunks2 complete →
  concat chunks1 = concat chunks2 →
  download_file get1 url output_path fs = download_file get2 url output_path fs
  ∧ (download_file get1 url output_path fs).1 = complete
  ∧ (download_file get1 url output_path fs).2 !! output_path
    = Some (concat chunks1)
  ∧ (∀ old,
       (download_file get1 url output_path (<[output_path := old]> fs)).2
       = (download_file get1 url output_path fs).2)
  ∧ ∀ p, p ≠ output_path →
      (download_file get1 url output_path fs).2 !! p = fs !! p.
Proof.
  intros H1 H2 Hcat. unfold download_file. rewrite H1, H2.
  rewrite !written_chunks_concat, Hcat. simpl. split_and!; [done|done| | |].
  - by rewrite lookup_insert_eq.
  - intros old. by rewrite insert_insert_eq.
  - intros p Hp. by rewrite lookup_insert_ne.
Qed.

(** The bytes abc in two chunks with an empty one between, and in one. *)
Lemma download_file_rechunked_witness :
  download_file (λ _, Body [str "ab"; []; str "c"] true) AIRPORTS_CSV_URL
    Sample.staging Sample.fs_published
  = download_file (λ _, Body [str "abc"] true) AIRPORTS_CSV_URL
      Sample.staging Sample.fs_published
  ∧ (download_file (λ _, Body [str "ab"; []; str "c"] true) AIRPORTS_CSV_URL
       Sample.staging Sample.fs_published).2 !! Sample.staging
    = Some (concat [str "ab"; []; str "c"]).
Proof.
  destruct (download_file_rechunked
              (λ _, Body [str "ab"; []; str "c"] true)
              (λ _, Body [str "abc"] true) AIRPORTS_CSV_URL
              Sample.staging Sample.fs_published
              [str "ab"; []; str "c"] [str "abc"] true)
    as (Heq & _ & Hfile & _); [reflexivity..|].
  split; [exact Heq|exact Hfile].
Defined.

(* ===================================================================== *)
(** * Further properties: filter_csv                                      *)
(* ===================================================================== *)

Section filter_more.
Implicit Types (fs : filesystem) (input_path output_path : path)
  (fieldnames row : list pystr) (body : list (list pystr)).

(** The writer refuses the projection of a row exactly when the row has
    more cells than the header has names. *)
Lemma wrong_fields_DictReader_row fieldnames row :
  wrong_fields (filter (λ f, f ∉ columns_to_remove) fieldnames)
    (filtered_row (DictReader_row fieldnames row))
  = bool_decide (length fieldnames < length row)%nat.
Proof.
  destruct (decide (length fieldnames < length row)%nat) as [Hlong|Hshort].
  - rewrite bool_decide_eq_true_2 by done. unfold wrong_fields. simpl.
    unfold DictReader_row.
    destruct (Nat.ltb_spec (length fieldnames) (length row)); [|lia].
    done.
  - rewrite bool_decide_eq_false_2 by done.
    apply wrong_fields_filtered_row. lia.
Qed.

Lemma writerows_true_Forall fieldnames (rowdicts : list row_dict)
    (text : pystr) :
  writerows fieldnames rowdicts = (true, text) →
  Forall (λ d, wrong_fields fieldnames d = false) rowdicts.
Proof.
  revert text. induction rowdicts as [|d ds IH]; intros text; simpl; [done|].
  unfold dict_to_list. destruct (wrong_fields fieldnames d) eqn:Hd; [done|].
  destruct (writerows fieldnames ds) as [ok out]. intros [= -> <-].
  constructor; [done|]. by eapply IH.
Qed.

Lemma filter_fmap_comm {A B} (f : A → B) (P : B → Prop)
    `{!∀ y, Decision (P y)} (l : list A) :
  filter P (f <$> l) = f <$> filter (λ x, P (f x)) l.
Proof.
  induction l as [|x l IH]; [done|]. rewrite fmap_cons, !filter_cons.
  destruct (decide (P (f x))); simpl; by rewrite IH.
Qed.

(** A key whose column lies beyond the end of a short row is given
    Python's None. *)
Lemma foldl_insert_None_elem (l : list pystr)
    (d : gmap pystr (option pystr)) key :
  key ∈ l → foldl (λ d k, <[k := None]> d) d l !! key = Some None.
Proof.
  induction l as [|k l IH] using rev_ind; [by intros ?%elem_of_nil|].
  rewrite foldl_snoc. intros Hin.
  destruct (decide (k = key)) as [->|Hne]; [by rewrite lookup_insert_eq|].
  rewrite lookup_insert_ne by done. apply IH.
  apply elem_of_app in Hin as [?|?%list_elem_of_singleton]; [done|].
  by destruct Hne.
Qed.

Lemma DictReader_row_short fieldnames row key :
  key ∈ drop (length row) fieldnames →
  cells (DictReader_row fieldnames row) !! key = Some None.
Proof.
  intros Hkey. unfold DictReader_row.
  assert (length row < length fieldnames)%nat as Hlen.
  { destruct (decide (length row < length fieldnames)%nat); [done|].
    rewrite drop_ge in Hkey by lia. by apply elem_of_nil in Hkey. }
  destruct (Nat.ltb_spec (length fieldnames) (length row)); [lia|].
  destruct (Nat.ltb_spec (length row) (length fieldnames)); [|lia].
  simpl. by apply foldl_insert_None_elem.
Qed.

Lemma keep_row_None (d : row_dict) :
  cells d !! str "iso_country" = Some None
  ∨ cells d !! str "icao_code" = Some None →
  keep_row d = None.
Proof.
  unfold keep_row, dict_get. intros [->| ->]; simpl; [done|].
  by destruct (default _ _).
Qed.
End filter_more.

(** X2.  [filter_csv] returns True only when the input file is there,
    decodes and parses, has a header row, and every non-blank row after
    it passes through the loop (neither iso_country nor icao_code is None
    in it) and, if it is selected, is no longer than the header.  These
    conditions are exactly what lets the reading phase run to its end and
    the writer accept every collected row: a table that meets them gives
    the function no reason to return False, which leaves the disk as the
    only possible one. *)
Theorem filter_csv_true_iff (input_path output_path : path)
    (fs : filesystem) :
  let accepted :=
    ∃ raw lines fieldnames body,
      fs !! input_path = Some raw
      ∧ text_lines raw = Some lines
      ∧ csv_reader lines = Some (fieldnames :: body)
      ∧ Forall (λ row,
          row = [] ∨
          ∃ keep, keep_row (DictReader_row fieldnames row) = Some keep
                  ∧ (keep = true → (length row ≤ length fieldnames)%nat))
          body in
  ((filter_csv input_path output_path fs).1 = true → accepted)
  ∧ (accepted ↔
     ∃ hdr data,
       fs !! input_path ≫= read_and_select = Some (hdr, data)
       ∧ (write_filtered hdr data).1 = true).
Proof.
  intros accepted.
  assert ((filter_csv input_path output_path fs).1 = true ↔
          ∃ hdr data,
            fs !! input_path ≫= read_and_select = Some (hdr, data)
            ∧ (write_filtered hdr data).1 = true) as Hphases.
  { unfold filter_csv.
    destruct (fs !! input_path ≫= read_and_select) as [[hdr data]|].
    - destruct (write_filtered hdr data) as [ok content] eqn:Hw. simpl.
      split.
      + intros ->. exists hdr, data. by rewrite Hw.
      + intros (hdr' & data' & [= <- <-] & Hok). by rewrite Hw in Hok.
    - split; [done|]. by intros (? & ? & ? & _). }
  assert ((filter_csv input_path output_path fs).1 = true ↔ accepted)
    as Hmodel.
  { unfold accepted. clear Hphases accepted.
    split.
    - destruct (filter_csv input_path output_path fs) as [ok fs'] eqn:Hrun.
      simpl. intros ->.
      pose proof Hrun as Hfile. unfold filter_csv in Hfile.
      apply filter_csv_true_inv in Hrun
        as (raw & fieldnames & reader & fd & Hraw & Hopen & Hsel & _).
      rewrite Hraw in Hfile. simpl in Hfile.
      unfold read_and_select in Hfile. rewrite Hopen in Hfile. simpl in Hfile.
      rewrite Hsel in Hfile. simpl in Hfile. unfold write_filtered in Hfile.
      destruct (writerows _ fd) as [ok body'] eqn:Hw.
      injection Hfile as -> _.
      apply writerows_true_Forall in Hw.
      apply open_reader_Some in Hopen as (lines & body & Hlines & Hrows & ->).
      apply select_rows_Some in Hsel as [Hall ->].
      exists raw, lines, fieldnames, body. split_and!; [done..|].
      apply list.Forall_forall. intros row Hrow.
      destruct (decide (row = [])) as [|Hne]; [by left|right].
      assert (row ∈ filter (λ row, row ≠ []) body) as Hin
        by by apply list_elem_of_filter.
      rewrite Forall_fmap, list.Forall_forall in Hall.
      destruct (Hall row Hin) as [keep Hkeep]. exists keep. split; [done|].
      intros ->. rewrite list.Forall_forall in Hw.
      specialize (Hw (filtered_row (DictReader_row fieldnames row))).
      rewrite wrong_fields_DictReader_row in Hw.
      destruct (decide (length fieldnames < length row)%nat); [|lia].
      rewrite bool_decide_eq_true_2 in Hw by done.
      discriminate Hw. apply list_elem_of_fmap_2, list_elem_of_filter.
      split; [done|]. by apply list_elem_of_fmap_2.
    - intros (raw & lines & fieldnames & body & Hraw & Hlines & Hrows & Hall).
      set (reader := DictReader_row fieldnames <$> filter (λ row, row ≠ []) body).
      rewrite list.Forall_forall in Hall.
      destruct (select_rows_is_Some reader) as [fd Hfd].
      { apply Forall_fmap, list.Forall_forall.
        intros row [Hne Hin]%list_elem_of_filter.
        destruct (Hall row Hin) as [?|(keep & Hkeep & _)]; [done|].
        simpl. by rewrite Hkeep. }
      rewrite (filter_csv_written _ _ _ raw
                 (filter (λ f, f ∉ columns_to_remove) fieldnames) fd); [|done|].
      + simpl. unfold write_filtered. rewrite writerows_all; [done|].
        apply select_rows_Some in Hfd as [_ ->].
        apply Forall_fmap, list.Forall_forall.
        intros d [Hd (row & -> & [Hne Hin]%list_elem_of_filter)
                    %list_elem_of_fmap]%list_elem_of_filter.
        simpl. rewrite wrong_fields_DictReader_row.
        apply bool_decide_eq_false_2.
        destruct (Hall row Hin) as [?|(keep & Hkeep & Hlen)]; [done|].
        rewrite Hkeep in Hd. injection Hd as ->. specialize (Hlen eq_refl). lia.
      + unfold read_and_select, open_reader. rewrite Hlines. simpl.
        rewrite Hrows. simpl. fold reader. by rewrite Hfd.
  }
  split; [apply Hmodel|]. by rewrite <- Hmodel.
Qed.

(** X3.  A rectangular table, every row blank or with one cell per header
    name, gives [filter_csv] no reason to fail: the reading phase runs to
    its end and the writer accepts every row.  What it writes, and so
    what the output file holds after a call that returned True, is the
    projected header followed by the lines of the selected rows in their
    order: nothing of what was at the output path before remains. *)
Theorem filter_csv_rectangular_output (input_path output_path : path)
    (fs : filesystem) (raw : bytes) (lines fieldnames : list pystr)
    (body : list (list pystr)) :
  fs !! input_path = Some raw →
  text_lines raw = Some lines →
  csv_reader lines = Some (fieldnames :: body) →
  Forall (λ row, row = [] ∨ length row = length fieldnames) body →
  let output_fieldnames :=
    filter (λ f, f ∉ columns_to_remove) fieldnames in
  let content :=
    encode_utf8
      (writeheader output_fieldnames
       ++ concat
            ((λ row, row_line output_fieldnames
                       (filtered_row (DictReader_row fieldnames row)))
               <$> filter
                     (λ row, keep_row (DictReader_row fieldnames row)
                             = Some true)
                     (filter (λ row, row ≠ []) body))) in
  (∃ data,
     read_and_select raw = Some (output_fieldnames, data)
     ∧ write_filtered output_fieldnames data = (true, content))
  ∧ ∀ fs', filter_csv input_path output_path fs = (true, fs') →
           fs' = <[output_path := content]> fs.
Proof.
  intros Hraw Hlines Hrows Hrect hdr content.
  assert (filter_csv input_path output_path fs
          = (true, <[output_path := content]> fs)) as Hmodel.
  { unfold content, hdr. clear content hdr.
    pose proof (filter_csv_rectangular input_path output_path fs raw lines
                  fieldnames body Hraw Hlines Hrows Hrect) as Hok.
    destruct (filter_csv input_path output_path fs) as [ok fs'] eqn:Hrun.
    simpl in Hok. subst ok.
    apply filter_csv_true_inv in Hrun
      as (raw' & hdr & reader & fd & Hraw' & Hopen & Hsel & ->).
    rewrite Hraw in Hraw'. injection Hraw' as <-.
    apply open_reader_Some in Hopen as (lines' & body' & Hl & Hr & ->).
    rewrite Hlines in Hl. injection Hl as <-.
    rewrite Hrows in Hr. injection Hr as <- <-.
    apply select_rows_Some in Hsel as [_ ->]. simpl.
    by rewrite filter_fmap_comm, <- !list_fmap_compose.
  }
  split.
  - unfold filter_csv in Hmodel. rewrite Hraw in Hmodel. simpl in Hmodel.
    destruct (read_and_select raw) as [[hdr' data]|] eqn:Hsel; [|done].
    destruct (write_filtered hdr' data) as [ok text] eqn:Hw.
    injection Hmodel as -> Hfs.
    apply (f_equal (λ m : filesystem, m !! output_path)) in Hfs.
    rewrite !lookup_insert_eq in Hfs. injection Hfs as ->.
    pose proof Hsel as Hsel'. unfold read_and_select, open_reader in Hsel'.
    rewrite Hlines in Hsel'. simpl in Hsel'. rewrite Hrows in Hsel'.
    simpl in Hsel'. destruct (select_rows _); simpl in Hsel'; [|done].
    injection Hsel' as <- _. by exists data.
  - intros fs' Hrun. rewrite Hmodel in Hrun. by injection Hrun as <-.
Qed.

(** The sample table of three airports is rectangular. *)
Lemma filter_csv_rectangular_output_witness :
  let fieldnames :=
    [str "id"; str "name"; str "iso_country"; str "icao_code";
     str "home_link"] in
  let body :=
    [[str "1"; str "A"; str "US"; str "K1"; str "h1"];
     [str "2"; str "B"; str "FR"; str "K2"; str "h2"];
     [str "3"; str "C"; str "US"; []; str "h3"]] in
  let output_fieldnames :=
    filter (λ f, f ∉ columns_to_remove) fieldnames in
  let content :=
    encode_utf8
      (writeheader output_fieldnames
       ++ concat
            ((λ row, row_line output_fieldnames
                       (filtered_row (DictReader_row fieldnames row)))
               <$> filter
                     (λ row, keep_row (DictReader_row fieldnames row)
                             = Some true)
                     (filter (λ row, row ≠ []) body))) in
  content = Sample.airports_filtered
  ∧ (∃ data,
       read_and_select Sample.airports = Some (output_fieldnames, data)
       ∧ write_filtered output_fieldnames data = (true, content))
  ∧ ∀ fs',
      filter_csv Sample.staging Sample.output
        (Sample.fs_staged Sample.airports) = (true, fs') →
      fs' = <[Sample.output := content]> (Sample.fs_staged Sample.airports).
Proof.
  intros fieldnames body output_fieldnames content.
  split; [by vm_compute|].
  apply (filter_csv_rectangular_output Sample.staging Sample.output
           (Sample.fs_staged Sample.airports) Sample.airports
           (default [] (text_lines Sample.airports)) fieldnames body).
  - reflexivity.
  - by vm_compute.
  - by vm_compute.
  - repeat constructor; by right.
Defined.

(** X4.  One short row spoils the whole run: if a non-blank row ends
    before the column of iso_country or of icao_code, the loop calls
    [.strip()] on None, and [filter_csv] returns False without touching
    any file, whatever the other rows hold. *)
Theorem filter_csv_short_row (input_path output_path : path)
    (fs : filesystem) (raw : bytes) (lines fieldnames : list pystr)
    (body : list (list pystr)) (row : list pystr) :
  fs !! input_path = Some raw →
  text_lines raw = Some lines →
  csv_reader lines = Some (fieldnames :: body) →
  row ∈ body → row ≠ [] →
  str "iso_country" ∈ drop (length row) fieldnames
  ∨ str "icao_code" ∈ drop (length row) fieldnames →
  filter_csv input_path output_path fs = (false, fs).
Proof.
  intros Hraw Hlines Hrows Hrow Hne Hshort.
  apply filter_csv_read_failed. rewrite Hraw. simpl.
  apply read_and_select_None. do 3 right.
  exists fieldnames,
    (DictReader_row fieldnames <$> filter (λ row, row ≠ []) body).
  split.
  - unfold open_reader. rewrite Hlines. simpl. by rewrite Hrows.
  - apply Exists_exists. exists (DictReader_row fieldnames row). split.
    + apply list_elem_of_In, list_elem_of_fmap_2.
      by apply list_elem_of_filter.
    + apply keep_row_None.
      destruct Hshort; [left|right]; by apply DictReader_row_short.
Qed.

(** A French row with its two cells, then a row that stops after the
    name. *)
Lemma filter_csv_short_row_witness :
  filter_csv Sample.staging Sample.output
    (Sample.fs_staged (str "name,iso_country,icao_code
A,US,K1
B
"))
  = (false,
     Sample.fs_staged (str "name,iso_country,icao_code
A,US,K1
B
")).
Proof.
  apply (filter_csv_short_row Sample.staging Sample.output _
           (str "name,iso_country,icao_code
A,US,K1
B
")
           (default [] (text_lines (str "name,iso_country,icao_code
A,US,K1
B
")))
           [str "name"; str "iso_country"; str "icao_code"]
           [[str "A"; str "US"; str "K1"]; [str "B"]]
           [str "B"]).
  - reflexivity.
  - by vm_compute.
  - by vm_compute.
  - apply list_elem_of_In. right. by left.
  - done.
  - left. apply list_elem_of_In. by left.
Defined.

(** X5.  A table whose header lacks the iso_country column or the
    icao_code column never gets a data row published: [filter_csv]
    either returns False and leaves every file alone, or returns True and
    writes the projected header and nothing else. *)
Theorem filter_csv_without_column (input_path output_path : path)
    (fs : filesystem) (raw : bytes) (fieldnames : list pystr)
    (reader : list row_dict) :
  fs !! input_path = Some raw →
  open_reader raw = Some (fieldnames, reader) →
  str "iso_country" ∉ fieldnames ∨ str "icao_code" ∉ fieldnames →
  filter_csv input_path output_path fs = (false, fs)
  ∨ filter_csv input_path output_path fs
    = (true,
       <[output_path :=
           encode_utf8
             (writeheader (filter (λ f, f ∉ columns_to_remove) fieldnames))]>
         fs).
Proof.
  intros Hraw Hopen Hmiss.
  destruct (select_rows reader) as [fd|] eqn:Hsel.
  - right. by apply (filter_csv_missing_column _ _ _ raw fieldnames reader).
  - left. apply filter_csv_read_failed. rewrite Hraw. simpl.
    unfold read_and_select. rewrite Hopen. simpl. by rewrite Hsel.
Qed.

(** A table of names and countries, without codes. *)
Lemma filter_csv_without_column_witness :
  filter_csv Sample.staging Sample.output
    (Sample.fs_staged (str "name,iso_country
A,US
"))
  = (true,
     <[Sample.output := str "name,iso_country" ++ Sample.crlf]>
       (Sample.fs_staged (str "name,iso_country
A,US
"))).
Proof.
  destruct (filter_csv_without_column Sample.staging Sample.output
              (Sample.fs_staged (str "name,iso_country
A,US
"))
              (str "name,iso_country
A,US
")
              [str "name"; str "iso_country"]
              [DictReader_row [str "name"; str "iso_country"]
                 [str "A"; str "US"]])
    as [Hfail|Hok].
  - reflexivity.
  - by vm_compute.
  - right. apply (bool_decide_unpack _). by vm_compute.
  - apply (f_equal fst) in Hfail. by vm_compute in Hfail.
  - exact Hok.
Defined.

(** X6.  What stands in the removed columns has no influence on the
    output: two rows that agree outside id, home_link, wikipedia_link and
    keywords are tested alike, have the same projection and are written
    as the same line. *)
Theorem filtered_row_ignores_removed (row1 row2 : row_dict)
    (fieldnames : list pystr) :
  rest row1 = rest row2 →
  (∀ key, key ∉ columns_to_remove → cells row1 !! key = cells row2 !! key) →
  filtered_row row1 = filtered_row row2
  ∧ keep_row row1 = keep_row row2
  ∧ dict_to_list fieldnames (filtered_row row1)
    = dict_to_list fieldnames (filtered_row row2)
  ∧ row_line fieldnames (filtered_row row1)
    = row_line fieldnames (filtered_row row2).
Proof.
  intros Hrest Hcells.
  assert (filtered_row row1 = filtered_row row2) as Heq.
  { unfold filtered_row. rewrite Hrest. f_equal.
    apply map_eq. intros key. rewrite !map_lookup_filter.
    destruct (decide (key ∈ columns_to_remove)) as [Hin|Hout].
    - destruct (cells row1 !! key), (cells row2 !! key); simpl;
        by rewrite ?option_guard_False by (by intros Hn; apply Hn).
    - by rewrite (Hcells key Hout). }
  split_and!; [done| |by rewrite Heq..].
  by rewrite <- (keep_row_filtered_row row1), Heq, keep_row_filtered_row.
Qed.

(** Two rows that differ in the id only. *)
Lemma filtered_row_ignores_removed_witness :
  let common : gmap pystr (option pystr) :=
    <[str "iso_country" := Some (str "US")]>
      (<[str "icao_code" := Some (str "K1")]> ∅) in
  filtered_row (Row (<[str "id" := Some (str "1")]> common) None)
  = filtered_row (Row (<[str "id" := Some (str "7")]> common) None).
Proof.
  intros common.
  apply (filtered_row_ignores_removed _ _ []).
  - reflexivity.
  - intros key Hkey. cbn [cells].
    destruct (decide (str "id" = key)) as [<-|Hid].
    + destruct Hkey. apply (bool_decide_unpack _). by vm_compute.
    + by rewrite !lookup_insert_ne by done.
Defined.

Section trimming.
Implicit Types (s l m r : pystr) (c : N).

Lemma lstrip_app_space l s :
  Forall (λ c, isspace c = true) l → lstrip (l ++ s) = lstrip s.
Proof. induction 1 as [|c l Hc _ IH]; simpl; [done|]. by rewrite Hc. Qed.

(** Whitespace around a string that neither starts nor ends with
    whitespace is exactly what [strip] takes off. *)
Lemma strip_padded l m r :
  Forall (λ c, isspace c = true) l →
  Forall (λ c, isspace c = true) r →
  (∀ c t, m = c :: t → isspace c = false) →
  (∀ c t, m = t ++ [c] → isspace c = false) →
  strip (l ++ m ++ r) = m.
Proof.
  intros Hl Hr Hhead Hlast. unfold strip, rstrip.
  rewrite lstrip_app_space by done.
  destruct m as [|c t]; simpl.
  - rewrite (lstrip_all_space r Hr). done.
  - rewrite (Hhead c t eq_refl).
    destruct (exists_last (l:=c :: t)) as (t' & c' & Heq); [done|].
    rewrite app_comm_cons, Heq, reverse_app, reverse_snoc.
    rewrite lstrip_app_space by by apply Forall_reverse.
    simpl. rewrite (Hlast c' t' Heq). by rewrite <- reverse_snoc, reverse_involutive.
Qed.

Lemma strip_nonempty_iff s :
  strip s ≠ [] ↔ Exists (λ c, isspace c = false) s.
Proof.
  rewrite strip_nil_iff. induction s as [|c s IH].
  - split; [by intros []|by intros ?%Exists_nil].
  - split.
    + intros Hn. destruct (isspace c) eqn:Hc; [|by left].
      right. apply IH. intros Hs. apply Hn. by constructor.
    + intros Hex Hall. inversion Hall as [|? ? Hc Hs]; subst.
      inversion Hex as [? ? Hc'|? ? Hex']; subst; [congruence|].
      by apply IH in Hex'.
Qed.
End trimming.

(** X7.  The test of the loop, read on the raw cells: a row is selected
    exactly when its iso_country cell is the two letters US with nothing
    but whitespace before and after, and its icao_code cell holds at
    least one character that is not whitespace.  The letters are compared
    as they are: no case folding, nothing taken off but whitespace. *)
Theorem keep_row_padded (row : row_dict) :
  keep_row row = Some true ↔
  ∃ l r code,
    cells row !! str "iso_country" = Some (Some (l ++ str "US" ++ r))
    ∧ Forall (λ c, isspace c = true) l
    ∧ Forall (λ c, isspace c = true) r
    ∧ cells row !! str "icao_code" = Some (Some code)
    ∧ Exists (λ c, isspace c = false) code.
Proof.
  rewrite keep_row_true_iff. unfold matches_rule. split.
  - intros (country & code & Hc & Hi & Hus & Hcode).
    destruct (strip_spec country) as (l & r & Heq & Hl & Hr & _).
    exists l, r, code. rewrite Hus in Heq. rewrite <- Heq.
    split_and!; [done..|]. by apply strip_nonempty_iff.
  - intros (l & r & code & Hc & Hl & Hr & Hi & Hcode).
    exists (l ++ str "US" ++ r), code. split_and!; [done|done| |].
    + apply strip_padded; [done|done| |].
      * intros c t [= <- _]. done.
      * intros c t Heq. apply (f_equal reverse) in Heq.
        rewrite reverse_snoc in Heq. by injection Heq as <- _.
    + by apply strip_nonempty_iff.
Qed.

(* ===================================================================== *)
(** * Further properties: run_once, run_continuously and main             *)
(* ===================================================================== *)

Section runs.
Implicit Types (fs : filesystem) (get : pystr → response)
  (output_path tp : path) (env : environment) (seconds : float).

Lemma run_once_raised_iff get output_path fs :
  (run_once get output_path fs).1 = Raised ↔ temp_path output_path = None.
Proof.
  rewrite run_once_unfold.
  destruct (temp_path output_path) as [tp|]; [|done].
  destruct (get AIRPORTS_CSV_URL) as [|chunks [|]]; simpl; [done| |done].
  by destruct (read_and_select _) as [[hdr data]|].
Qed.

(** A run whose fetch does not complete leaves the published file. *)
Lemma run_once_failed_fetch get output_path fs :
  (∀ chunks, get AIRPORTS_CSV_URL ≠ Body chunks true) →
  (run_once get output_path fs).2 !! output_path = fs !! output_path.
Proof.
  intros Hfail. rewrite run_once_unfold.
  destruct (temp_path output_path) as [tp|] eqn:Htp; [|done].
  pose proof (temp_path_ne _ _ Htp).
  destruct (get AIRPORTS_CSV_URL) as [|chunks [|]] eqn:Hget; simpl;
    [done| |by fs_lookup].
  by destruct (Hfail chunks).
Qed.

Lemma periodic_frame n k env output_path seconds fs tp p :
  temp_path output_path = Some tp → p ≠ tp → p ≠ output_path →
  (periodic n k env output_path seconds fs).2 !! p = fs !! p.
Proof.
  intros Htp Hp1 Hp2. revert k fs. induction n as [|n IH]; intros k fs; simpl;
    [done|].
  destruct (sleep_raises _ _); [done|]. destruct (ctrl_c env k); [done|].
  pose proof (run_once_frame (remote env k) output_path fs tp p Htp Hp1 Hp2)
    as Hrun.
  destruct (run_once (remote env k) output_path fs) as [[ok|] fs1]; [|done].
  specialize (IH (S k) fs1).
  destruct (periodic n (S k) env output_path seconds fs1) as [tr fs2].
  simpl in *. by rewrite IH.
Qed.

Lemma periodic_failed_fetches n k env output_path seconds fs :
  (∀ j, (k ≤ j < k + n)%nat →
        ∀ chunks, remote env j AIRPORTS_CSV_URL ≠ Body chunks true) →
  (periodic n k env output_path seconds fs).2 !! output_path
  = fs !! output_path.
Proof.
  revert k fs. induction n as [|n IH]; intros k fs Hfail; simpl; [done|].
  destruct (sleep_raises _ _); [done|]. destruct (ctrl_c env k); [done|].
  pose proof (run_once_failed_fetch (remote env k) output_path fs) as Hrun.
  destruct (run_once (remote env k) output_path fs) as [[ok|] fs1];
    simpl in Hrun; [|apply Hrun, Hfail; lia].
  specialize (IH (S k) fs1).
  destruct (periodic n (S k) env output_path seconds fs1) as [tr fs2].
  simpl in *. rewrite IH by (intros j Hj; apply Hfail; lia).
  apply Hrun, Hfail. lia.
Qed.

(** The sleep before cycle [k + m] is the first that does not run to its
    end: the loop has done [m] turns by then and does nothing after it.
    [ending] is what the trace closes with. *)
Lemma periodic_until env output_path seconds (ending : list event) :
  is_Some (temp_path output_path) →
  ∀ m k fs n,
    (∀ j, (k ≤ j < k + m)%nat →
          sleep_raises (monotonic env j) seconds = false
          ∧ ctrl_c env j = false) →
    (sleep_raises (monotonic env (k + m)) seconds = true
       ∧ ending = [EvSleepRaised]
     ∨ sleep_raises (monotonic env (k + m)) seconds = false
       ∧ ctrl_c env (k + m) = true
       ∧ ending = [EvSleep seconds; EvStopped]) →
    (m < n)%nat →
    ∃ results,
      length results = m
      ∧ (periodic n k env output_path seconds fs).1
        = schedule seconds k results ++ ending
      ∧ (periodic n k env output_path seconds fs).2
        = (periodic m k env output_path seconds fs).2.
Proof.
  intros Hname. induction m as [|m IH]; intros k fs n Hgo Hend Hn.
  - destruct n as [|n]; [lia|]. simpl. rewrite Nat.add_0_r in Hend.
    exists []. destruct Hend as [[-> ->]|(-> & -> & ->)]; by split_and!.
  - destruct n as [|n]; [lia|].
    destruct (Hgo k) as [Hs Hc]; [lia|].
    destruct (periodic_turn env output_path seconds Hname n k fs Hs Hc)
      as (ok & Hok & ->).
    destruct (periodic_turn env output_path seconds Hname m k fs Hs Hc)
      as (ok' & Hok' & ->).
    destruct (IH (S k) (run_once (remote env k) output_path fs).2 n)
      as (results & Hlen & Htr & Hfs).
    { intros j Hj. apply Hgo. lia. }
    { by replace (S k + m)%nat with (k + S m)%nat by lia. }
    { lia. }
    exists (ok :: results). cbn [fst snd]. rewrite Htr, Hfs.
    split_and!; [simpl; lia|done|done].
Qed.

End runs.

(** X8.  When [run_once] returns True, the fetch was complete and the
    published file is the filter applied to all the bytes fetched: the
    projected header, then the lines of the selected rows in their order.
    The staging file is gone, also one left behind by an earlier broken
    fetch, and no other file has changed. *)
Theorem run_once_true (get : pystr → response) (output_path : path)
    (fs fs' : filesystem) :
  run_once get output_path fs = (Returned true, fs') →
  ∃ tp chunks fieldnames reader,
    temp_path output_path = Some tp
    ∧ get AIRPORTS_CSV_URL = Body chunks true
    ∧ open_reader (concat chunks) = Some (fieldnames, reader)
    ∧ fs' !! output_path
      = Some (let output_fieldnames :=
                filter (λ f, f ∉ columns_to_remove) fieldnames in
              encode_utf8
                (writeheader output_fieldnames
                 ++ concat ((λ row,
                              row_line output_fieldnames (filtered_row row))
                              <$> filter (λ row, keep_row row = Some true)
                                    reader)))
    ∧ fs' !! tp = None
    ∧ ∀ p, p ≠ tp → p ≠ output_path → fs' !! p = fs !! p.
Proof.
  intros Hrun.
  assert (run_once get output_path fs = (Returned true, fs')) as Hrun' by done.
  rewrite run_once_unfold in Hrun.
  destruct (temp_path output_path) as [tp|] eqn:Htp; [|done].
  pose proof (temp_path_ne _ _ Htp) as Hne.
  destruct (get AIRPORTS_CSV_URL) as [|chunks [|]] eqn:Hget; [done| |done].
  rewrite written_chunks_concat in Hrun.
  destruct (read_and_select (concat chunks)) as [[hdr data]|] eqn:Hsel;
    [|done].
  injection Hrun as Hok <-.
  unfold read_and_select in Hsel.
  destruct (open_reader (concat chunks)) as [[fieldnames reader]|] eqn:Hopen;
    simpl in Hsel; [|done].
  destruct (select_rows reader) as [fd|] eqn:Hfd; simpl in Hsel; [|done].
  injection Hsel as <- <-.
  apply select_rows_Some in Hfd as [_ ->].
  exists tp, chunks, fieldnames, reader. split_and!; [done..| | |].
  - fs_lookup. rewrite write_filtered_true by done.
    simpl. by rewrite <- list_fmap_compose.
  - by fs_lookup.
  - intros p Hp1 Hp2. by fs_lookup.
Qed.

(** The sample table served whole, with a stale staging file on disk. *)
Lemma run_once_true_witness :
  run_once (Sample.serves Sample.airports) Sample.output
    (Sample.fs_staged (str "stale"))
  = (Returned true, {[ Sample.output := Sample.airports_filtered ]})
  ∧ ∃ tp chunks fieldnames reader,
      temp_path Sample.output = Some tp
      ∧ Sample.serves Sample.airports AIRPORTS_CSV_URL = Body chunks true
      ∧ open_reader (concat chunks) = Some (fieldnames, reader)
      ∧ ({[ Sample.output := Sample.airports_filtered ]} : filesystem)
          !! Sample.output
        = Some (let output_fieldnames :=
                  filter (λ f, f ∉ columns_to_remove) fieldnames in
                encode_utf8
                  (writeheader output_fieldnames
                   ++ concat ((λ row,
                                row_line output_fieldnames (filtered_row row))
                                <$> filter (λ row, keep_row row = Some true)
                                      reader)))
      ∧ ({[ Sample.output := Sample.airports_filtered ]} : filesystem) !! tp
        = None
      ∧ ∀ p, p ≠ tp → p ≠ Sample.output →
          ({[ Sample.output := Sample.airports_filtered ]} : filesystem) !! p
          = Sample.fs_staged (str "stale") !! p.
Proof.
  assert (run_once (Sample.serves Sample.airports) Sample.output
            (Sample.fs_staged (str "stale"))
          = (Returned true, {[ Sample.output := Sample.airports_filtered ]}))
    as Hrun by reflexivity.
  split; [exact Hrun|]. exact (run_once_true _ _ _ _ Hrun).
Defined.

(** X9.  However long [run_continuously] runs and however its cycles
    end, it changes no file besides the output file and its one staging
    file: failed cycles do not pile up files on the disk. *)
Theorem run_continuously_frame (n : nat) (env : environment)
    (output_path tp : path) (interval_hours : float) (fs : filesystem)
    (p : path) :
  temp_path output_path = Some tp → p ≠ tp → p ≠ output_path →
  (run_continuously n env output_path interval_hours fs).2 !! p = fs !! p.
Proof.
  intros Htp Hp1 Hp2. unfold run_continuously.
  pose proof (run_once_frame (remote env 0) output_path fs tp p Htp Hp1 Hp2)
    as Hrun.
  destruct (run_once (remote env 0) output_path fs) as [[ok|] fs1]; [|done].
  pose proof (periodic_frame n 1 env output_path
                (PrimFloat.mul interval_hours 3600%float) fs1 tp p
                Htp Hp1 Hp2)
    as Hloop.
  destruct (periodic n 1 env output_path _ fs1) as [tr fs2].
  simpl in *. by rewrite Hloop.
Qed.

(** Five turns with a source that breaks off from the second cycle on: a
    file next to the dataset is as it was. *)
Lemma run_continuously_frame_witness :
  (run_continuously 5 Sample.once_then_broken
     Sample.output 24%float
     (<[[str "data"; str "notes.txt"] := str "keep"]> Sample.fs_published)).2
    !! [str "data"; str "notes.txt"]
  = (<[[str "data"; str "notes.txt"] := str "keep"]> Sample.fs_published)
      !! [str "data"; str "notes.txt"].
Proof.
  apply (run_continuously_frame 5 _ Sample.output Sample.staging);
    by vm_compute.
Defined.

(** X10.  Ctrl+C during a sleep ends [run_continuously] there: the cycles
    before it have run, each after one sleep of the interval, the trace
    closes with the interrupted sleep, no cycle runs afterwards, and the
    file system stays as the last cycle left it.  The sleeps up to that
    one are sleeps [time.sleep] has entered: it took their length. *)
Theorem run_continuously_interrupted (n k : nat) (env : environment)
    (output_path : path) (interval_hours : float) (fs : filesystem) :
  let interval_seconds := PrimFloat.mul interval_hours 3600%float in
  is_Some (temp_path output_path) →
  (∀ j, (1 ≤ j ≤ k)%nat →
        sleep_raises (monotonic env j) interval_seconds = false) →
  (∀ j, (1 ≤ j < k)%nat → ctrl_c env j = false) →
  ctrl_c env k = true →
  (1 ≤ k ≤ n)%nat →
  ∃ first results,
    length results = (k - 1)%nat
    ∧ (run_continuously n env output_path interval_hours fs).1
      = EvCycle 0 (Returned first)
          :: schedule interval_seconds 1 results
          ++ [EvSleep interval_seconds; EvStopped]
    ∧ (run_continuously n env output_path interval_hours fs).2
      = (run_continuously (k - 1) env output_path interval_hours fs).2.
Proof.
  intros seconds Hname Hsleep Hgo Hstop Hk. unfold run_continuously.
  fold seconds.
  destruct (run_once_returns (remote env 0) output_path fs Hname)
    as [first Hfirst].
  destruct (run_once (remote env 0) output_path fs) as [r fs1].
  simpl in Hfirst. subst r.
  destruct (periodic_until env output_path seconds
              [EvSleep seconds; EvStopped] Hname
              (k - 1) 1 fs1 n) as (results & Hlen & Htr & Hfs).
  { intros j Hj. split; [apply Hsleep|apply Hgo]; lia. }
  { right. replace (1 + (k - 1))%nat with k by lia.
    split_and!; [apply Hsleep; lia|done|done]. }
  { lia. }
  exists first, results.
  destruct (periodic n 1 env output_path seconds fs1) as [tr fs2].
  destruct (periodic (k - 1) 1 env output_path seconds fs1) as [tr' fs2'].
  simpl in *. by rewrite Htr, Hfs.
Qed.

(** The source is down and Ctrl+C comes during the second sleep. *)
Lemma run_continuously_interrupted_witness :
  ∃ first results,
    length results = 1%nat
    ∧ (run_continuously 7 Sample.offline_interrupted Sample.output
         24%float Sample.fs_published).1
      = EvCycle 0 (Returned first)
          :: schedule (PrimFloat.mul 24%float 3600%float) 1 results
          ++ [EvSleep (PrimFloat.mul 24%float 3600%float); EvStopped]
    ∧ (run_continuously 7 Sample.offline_interrupted Sample.output
         24%float Sample.fs_published).2
      = (run_continuously 1 Sample.offline_interrupted Sample.output
           24%float Sample.fs_published).2.
Proof.
  apply (run_continuously_interrupted 7 2 Sample.offline_interrupted
           Sample.output 24%float Sample.fs_published).
  - eexists. by vm_compute.
  - intros j Hj. assert (j = 1 ∨ j = 2)%nat as [->| ->] by lia;
      by vm_compute.
  - intros j Hj. simpl. apply bool_decide_eq_false_2. lia.
  - reflexivity.
  - lia.
Defined.

(** X11.  An interval whose length the first [time.sleep] does not take
    (a negative one, one that is not a number, one too long for the
    clock) lets the first cycle run and nothing more: the call raises,
    the exception leaves the loop, and no later cycle is ever
    attempted. *)
Theorem run_continuously_negative_interval (n : nat) (env : environment)
    (output_path : path) (interval_hours : float) (fs : filesystem) :
  is_Some (temp_path output_path) →
  sleep_raises (monotonic env 1) (PrimFloat.mul interval_hours 3600%float)
  = true →
  ∃ first,
    run_continuously (S n) env output_path interval_hours fs
    = ([EvCycle 0 (Returned first); EvSleepRaised],
       (run_once (remote env 0) output_path fs).2).
Proof.
  intros Hname Hneg. unfold run_continuously.
  destruct (run_once_returns (remote env 0) output_path fs Hname)
    as [first Hfirst].
  destruct (run_once (remote env 0) output_path fs) as [r fs1].
  simpl in Hfirst. subst r. exists first. simpl. by rewrite Hneg.
Qed.

(** An interval of minus one hour. *)
Lemma run_continuously_negative_interval_witness :
  ∃ first,
    run_continuously 4 Sample.offline Sample.output (-1)%float
      Sample.fs_published
    = ([EvCycle 0 (Returned first); EvSleepRaised],
       (run_once (remote Sample.offline 0) Sample.output
          Sample.fs_published).2).
Proof.
  apply (run_continuously_negative_interval 3 Sample.offline Sample.output
           (-1)%float Sample.fs_published).
  - eexists. by vm_compute.
  - by vm_compute.
Defined.

(** An interval of 2562048 hours, which is 2^63 nanoseconds and more:
    one cycle, then the exception. *)
Example overlong_interval_example :
  (run_continuously 4 Sample.offline Sample.output 2562048%float
     Sample.fs_published).1
  = [EvCycle 0 (Returned false); EvSleepRaised].
Proof. reflexivity. Qed.

(** X12.  Cycles whose fetch fails leave the dataset of the last good
    cycle in place: if from the second cycle on no fetch completes, the
    published file after any number of turns is the one the first cycle
    left. *)
Theorem run_continuously_failed_fetches (n : nat) (env : environment)
    (output_path : path) (interval_hours : float) (fs : filesystem) :
  (∀ j, (1 ≤ j ≤ n)%nat →
        ∀ chunks, remote env j AIRPORTS_CSV_URL ≠ Body chunks true) →
  (run_continuously n env output_path interval_hours fs).2 !! output_path
  = (run_once (remote env 0) output_path fs).2 !! output_path.
Proof.
  intros Hfail. unfold run_continuously.
  destruct (run_once (remote env 0) output_path fs) as [[ok|] fs1]; [|done].
  pose proof (periodic_failed_fetches n 1 env output_path
                (PrimFloat.mul interval_hours 3600%float) fs1) as Hloop.
  destruct (periodic n 1 env output_path _ fs1) as [tr fs2].
  simpl in *. apply Hloop. intros j Hj. apply Hfail. lia.
Qed.

(** The source serves the sample table once and breaks off ever after. *)
Lemma run_continuously_failed_fetches_witness :
  (run_continuously 3 Sample.once_then_broken Sample.output 24%float
     Sample.fs_published).2 !! Sample.output
  = (run_once (remote Sample.once_then_broken 0) Sample.output
       Sample.fs_published).2 !! Sample.output.
Proof.
  apply (run_continuously_failed_fetches 3 Sample.once_then_broken).
  intros j Hj chunks. simpl.
  rewrite bool_decide_eq_false_2 by lia. discriminate.
Defined.

(** X13.  Without --continuous the process runs one cycle and exits with
    status 0 or 1, whatever --interval says.  The status is 0 when
    [run_once] returned True and 1 when it returned False or raised; so a
    status 0 tells that the output path has a name, the stream was
    complete, the bytes fetched were read and selected from without an
    exception, and the writer accepted every selected row. *)
Theorem main_single_shot (n : nat) (env : environment) (args : arguments)
    (fs : filesystem) :
  args_continuous args = false →
  (main n env args fs).2 = (run_once (remote env 0) (args_output args) fs).2
  ∧ ((main n env args fs).1 = Some 0%Z ∨ (main n env args fs).1 = Some 1%Z)
  ∧ ((main n env args fs).1 = Some 0%Z ↔
     (run_once (remote env 0) (args_output args) fs).1 = Returned true)
  ∧ ((main n env args fs).1 = Some 0%Z →
     ∃ tp chunks hdr data,
       temp_path (args_output args) = Some tp
       ∧ remote env 0 AIRPORTS_CSV_URL = Body chunks true
       ∧ read_and_select (concat chunks) = Some (hdr, data)
       ∧ (write_filtered hdr data).1 = true)
  ∧ ∀ interval_hours,
      main n env (Args (args_output args) false interval_hours) fs
      = main n env args fs.
Proof.
  intros Hmode. unfold main. rewrite Hmode. cbn [args_continuous args_output].
  split_and!; [by destruct (run_once _ _ _)| | | |done].
  - by destruct (run_once _ _ _) as [[[|]|] fs1]; [left|right|right].
  - by destruct (run_once _ _ _) as [[[|]|] fs1].
  - rewrite run_once_unfold.
    destruct (temp_path (args_output args)) as [tp|] eqn:Htp; [|done].
    destruct (remote env 0 AIRPORTS_CSV_URL) as [|chunks [|]] eqn:Hget;
      [done| |done].
    rewrite written_chunks_concat.
    destruct (read_and_select (concat chunks)) as [[hdr data]|] eqn:Hsel;
      [|done].
    simpl. destruct (write_filtered hdr data).1 eqn:Hw; [|done].
    intros _. by exists tp, chunks, hdr, data.
Qed.

(** One cycle on the sample table, and one with the source down; the
    interval is of no account. *)
Lemma main_single_shot_witness :
  (main 0 Sample.once_then_broken
     (Args Sample.output false (-5)%float) Sample.fs_published).1
  = Some 0%Z
  ∧ (main 0 Sample.offline
       (Args Sample.output false 24%float) Sample.fs_published).1
    = Some 1%Z.
Proof.
  destruct (main_single_shot 0 Sample.once_then_broken
              (Args Sample.output false (-5)%float) Sample.fs_published
              eq_refl) as (_ & _ & [_ Hzero] & _).
  destruct (main_single_shot 0 Sample.offline
              (Args Sample.output false 24%float) Sample.fs_published
              eq_refl) as (_ & [Hone|Hone] & _ & Hneeds & _).
  - destruct (Hneeds Hone) as (? & ? & ? & ? & _ & Hget & _).
    discriminate Hget.
  - split; [|exact Hone]. apply Hzero. reflexivity.
Defined.



(* ===================================================================== *)
(** * Further properties: the written file read back                      *)
(* ===================================================================== *)

(** ** The codec: encoding then decoding *)

Section codec.
Implicit Types (c b : N) (r bs : bytes).

Lemma ltb_false a b : b ≤ a → (a <? b) = false.
Proof. intros. by apply N.ltb_ge. Qed.

Lemma ltb_true a b : a < b → (a <? b) = true.
Proof. intros. by apply N.ltb_lt. Qed.

Lemma between_true lo hi b : lo ≤ b → b ≤ hi → between lo hi b = true.
Proof.
  intros. unfold between. apply andb_true_iff. by rewrite !N.leb_le.
Qed.

Lemma between_false lo hi b : b < lo ∨ hi < b → between lo hi b = false.
Proof.
  intros. unfold between. apply andb_false_iff.
  rewrite !N.leb_gt. tauto.
Qed.

Lemma is_cont_true b : 128 ≤ b → b ≤ 191 → is_cont b = true.
Proof. apply (between_true 128 191). Qed.

Lemma second_bounds b0 :
  128 ≤ second_lo b0 ∧ second_hi b0 ≤ 191.
Proof.
  unfold second_lo, second_hi.
  repeat match goal with |- context [N.eqb ?a ?b] => destruct (N.eqb a b) end;
    lia.
Qed.

Lemma decode_1 b0 r :
  b0 < 128 → decode_utf8 (b0 :: r) = cons b0 <$> decode_utf8 r.
Proof. intros. cbn [decode_utf8]. by rewrite ltb_true. Qed.

Lemma decode_2 b0 b1 r :
  194 ≤ b0 → b0 ≤ 223 → 128 ≤ b1 → b1 ≤ 191 →
  decode_utf8 (b0 :: b1 :: r)
  = cons ((b0 - 192) * 64 + (b1 - 128)) <$> decode_utf8 r.
Proof.
  intros. cbn [decode_utf8].
  rewrite ltb_false by lia. rewrite between_true by lia.
  by rewrite is_cont_true by lia.
Qed.

Lemma decode_3 b0 b1 b2 r :
  224 ≤ b0 → b0 ≤ 239 → second_lo b0 ≤ b1 → b1 ≤ second_hi b0 →
  128 ≤ b2 → b2 ≤ 191 →
  decode_utf8 (b0 :: b1 :: b2 :: r)
  = cons ((b0 - 224) * 4096 + (b1 - 128) * 64 + (b2 - 128))
      <$> decode_utf8 r.
Proof.
  intros. cbn [decode_utf8].
  rewrite ltb_false by lia. rewrite (between_false 194 223) by lia.
  rewrite (between_true 224 239) by lia.
  rewrite between_true by lia.
  by rewrite is_cont_true by lia.
Qed.

Lemma decode_4 b0 b1 b2 b3 r :
  240 ≤ b0 → b0 ≤ 244 → second_lo b0 ≤ b1 → b1 ≤ second_hi b0 →
  128 ≤ b2 → b2 ≤ 191 → 128 ≤ b3 → b3 ≤ 191 →
  decode_utf8 (b0 :: b1 :: b2 :: b3 :: r)
  = cons ((b0 - 240) * 262144 + (b1 - 128) * 4096
          + (b2 - 128) * 64 + (b3 - 128))
      <$> decode_utf8 r.
Proof.
  intros. cbn [decode_utf8].
  rewrite ltb_false by lia. rewrite (between_false 194 223) by lia.
  rewrite (between_false 224 239) by lia.
  rewrite (between_true 240 244) by lia.
  rewrite between_true by lia.
  by rewrite !is_cont_true by lia.
Qed.

Lemma second_lo_cases b0 :
  (b0 = 224 ∧ second_lo b0 = 160) ∨ (b0 = 240 ∧ second_lo b0 = 144)
  ∨ (b0 ≠ 224 ∧ b0 ≠ 240 ∧ second_lo b0 = 128).
Proof.
  unfold second_lo. destruct (N.eqb_spec b0 224); [by left|].
  destruct (N.eqb_spec b0 240); [by right; left|]. by right; right.
Qed.

Lemma second_hi_cases b0 :
  (b0 = 237 ∧ second_hi b0 = 159) ∨ (b0 = 244 ∧ second_hi b0 = 143)
  ∨ (b0 ≠ 237 ∧ b0 ≠ 244 ∧ second_hi b0 = 191).
Proof.
  unfold second_hi. destruct (N.eqb_spec b0 237); [by left|].
  destruct (N.eqb_spec b0 244); [by right; left|]. by right; right.
Qed.

Lemma is_scalar_spec c :
  is_scalar c = true ↔ c < 55296 ∨ (57344 ≤ c ∧ c < 1114112).
Proof.
  unfold is_scalar.
  rewrite orb_true_iff, andb_true_iff, !N.ltb_lt, N.leb_le. tauto.
Qed.

Lemma decode_encode_char c r :
  is_scalar c = true →
  decode_utf8 (encode_char c ++ r) = cons c <$> decode_utf8 r.
Proof.
  intros Hc%is_scalar_spec. unfold encode_char.
  pose proof (N.div_mod' c 64) as E1.
  pose proof (N.mod_lt c 64 ltac:(done)) as B1.
  pose proof (N.div_mod' (c / 64) 64) as E2.
  pose proof (N.mod_lt (c / 64) 64 ltac:(done)) as B2.
  pose proof (N.div_mod' (c / 64 / 64) 64) as E3.
  pose proof (N.mod_lt (c / 64 / 64) 64 ltac:(done)) as B3.
  replace (c / 4096) with (c / 64 / 64) by (by rewrite N.Div0.div_div).
  replace (c / 262144) with (c / 64 / 64 / 64)
    by (by rewrite !N.Div0.div_div).
  generalize dependent (c mod 64). intros r1 E1 B1.
  generalize dependent ((c / 64) mod 64). intros r2 E2 B2.
  generalize dependent ((c / 64 / 64) mod 64). intros r3 E3 B3.
  generalize dependent (c / 64 / 64 / 64). intros q3 E3.
  generalize dependent (c / 64 / 64). intros q2 E2 E3.
  generalize dependent (c / 64). intros q1 E1 E2.
  destruct (N.ltb_spec c 128).
  { by apply decode_1. }
  destruct (N.ltb_spec c 2048).
  { cbn [app]. rewrite decode_2 by lia. do 2 f_equal. lia. }
  destruct (N.ltb_spec c 65536).
  { cbn [app].
    destruct (second_lo_cases (224 + q2)) as [[? ?]|[[? ?]|(? & ? & ?)]],
      (second_hi_cases (224 + q2)) as [[? ?]|[[? ?]|(? & ? & ?)]];
      (rewrite decode_3 by lia; do 2 f_equal; lia). }
  cbn [app].
  destruct (second_lo_cases (240 + q3)) as [[? ?]|[[? ?]|(? & ? & ?)]],
    (second_hi_cases (240 + q3)) as [[? ?]|[[? ?]|(? & ? & ?)]];
    (rewrite decode_4 by lia; do 2 f_equal; lia).
Qed.

Lemma decode_encode_utf8 s :
  Forall (λ c, is_scalar c = true) s → decode_utf8 (encode_utf8 s) = Some s.
Proof.
  unfold encode_utf8. induction 1 as [|c s Hc _ IH]; [done|].
  rewrite bind_cons, decode_encode_char by done. by rewrite IH.
Qed.

Lemma between_spec lo hi b : between lo hi b = true ↔ lo ≤ b ∧ b ≤ hi.
Proof. unfold between. by rewrite andb_true_iff, !N.leb_le. Qed.

Lemma is_cont_spec b : is_cont b = true ↔ 128 ≤ b ∧ b ≤ 191.
Proof. apply (between_spec 128 191). Qed.

(** Decoding yields scalar values only. *)
Lemma decode_utf8_scalar bs s :
  decode_utf8 bs = Some s → Forall (λ c, is_scalar c = true) s.
Proof.
  remember (length bs) as n eqn:Hn. revert bs s Hn.
  induction n as [n IH] using lt_wf_ind. intros bs s ->.
  destruct bs as [|b0 r0]; [by intros [= <-]|].
  cbn [decode_utf8].
  destruct (N.ltb_spec b0 128) as [H0|H0].
  { intros (s' & Hs' & ->)%fmap_Some. constructor.
    - apply is_scalar_spec. lia.
    - eapply IH; [|done|done]. simpl. lia. }
  destruct (between 194 223 b0) eqn:E1.
  { apply between_spec in E1.
    destruct r0 as [|b1 r1]; [done|].
    destruct (is_cont b1) eqn:C1; [|done]. apply is_cont_spec in C1.
    intros (s' & Hs' & ->)%fmap_Some. constructor.
    - apply is_scalar_spec. lia.
    - eapply IH; [|done|done]. simpl. lia. }
  destruct (between 224 239 b0) eqn:E2.
  { apply between_spec in E2.
    destruct r0 as [|b1 [|b2 r2]]; [done|done|].
    destruct (between _ _ b1 && is_cont b2) eqn:C; [|done].
    apply andb_true_iff in C as [C1 C2].
    apply between_spec in C1. apply is_cont_spec in C2.
    intros (s' & Hs' & ->)%fmap_Some. constructor.
    - apply is_scalar_spec.
      destruct (second_lo_cases b0) as [[? ?]|[[? ?]|(? & ? & ?)]],
        (second_hi_cases b0) as [[? ?]|[[? ?]|(? & ? & ?)]]; lia.
    - eapply IH; [|done|done]. simpl. lia. }
  destruct (between 240 244 b0) eqn:E3; [|done].
  apply between_spec in E3.
  destruct r0 as [|b1 [|b2 [|b3 r3]]]; [done|done|done|].
  destruct (between _ _ b1 && is_cont b2 && is_cont b3) eqn:C; [|done].
  apply andb_true_iff in C as [[C1 C2]%andb_true_iff C3].
  apply between_spec in C1. apply is_cont_spec in C2, C3.
  intros (s' & Hs' & ->)%fmap_Some. constructor.
  - apply is_scalar_spec.
    destruct (second_lo_cases b0) as [[? ?]|[[? ?]|(? & ? & ?)]],
      (second_hi_cases b0) as [[? ?]|[[? ?]|(? & ? & ?)]]; lia.
  - eapply IH; [|done|done]. simpl. lia.
Qed.
End codec.

(** ** The reader, character by character *)

Section characterwise.
Lemma feed_line_app r a b :
  feed_line r (a ++ b) = r' ← feed_chars r a; feed_line r' b.
Proof.
  revert r. induction a as [|c a IH]; intros r; simpl; [done|].
  destruct (parse_process_char r (Some c)) as [r'|]; simpl; [apply IH|done].
Qed.

Lemma feed_chars_app r a b :
  feed_chars r (a ++ b) = r' ← feed_chars r a; feed_chars r' b.
Proof.
  revert r. induction a as [|c a IH]; intros r; simpl; [done|].
  destruct (parse_process_char r (Some c)) as [r'|]; simpl; [apply IH|done].
Qed.

Lemma reader_rows_cons r line lines :
  reader_rows r (line :: lines)
  = r' ← feed_chars r line; end_of_line r' (λ r', reader_rows r' lines).
Proof.
  cbn [reader_rows]. rewrite <- (app_nil_r line) at 1.
  rewrite feed_line_app. destruct (feed_chars r line) as [r'|]; [|done].
  done.
Qed.

(** Reading line by line is reading character by character. *)
Lemma reader_rows_split_lines r0 cur t r rows :
  feed_chars r0 cur = Some r →
  run_text r (negb (bool_decide (cur = []))) t = Some rows →
  reader_rows r0 (split_lines cur t) = Some rows.
Proof.
  revert r0 cur r rows. induction t as [|c t IH]; intros r0 cur r rows Hcur.
  - cbn [run_text split_lines]. destruct cur as [|c cur].
    + simpl in Hcur. by injection Hcur as ->.
    + rewrite bool_decide_eq_false_2 by done. cbn [negb].
      rewrite reader_rows_cons, Hcur. done.
  - cbn [run_text split_lines].
    destruct (parse_process_char r (Some c)) as [r1|] eqn:Hc; [|done].
    cbn [mbind option_bind].
    destruct (N.eqb_spec c LF) as [->|Hne].
    + rewrite reader_rows_cons, feed_chars_app, Hcur. simpl.
      rewrite Hc. simpl. unfold end_of_line.
      destruct (parse_process_char r1 None) as [r2|]; [|done]. simpl.
      destruct (state r2).
      1: { intros (rows' & Hrows' & ->)%fmap_Some.
           by rewrite (IH parse_reset [] parse_reset rows'). }
      all: by apply (IH r2 [] r2).
    + intros Hrun. apply (IH r0 (cur ++ [c]) r1).
      * rewrite feed_chars_app, Hcur. simpl. by rewrite Hc.
      * rewrite bool_decide_eq_false_2; [done|]. by destruct cur.
Qed.
End characterwise.

Section steps.
Implicit Types (f : pystr) (fs : list pystr) (c : N) (r : reader_obj).

Lemma parse_add_char_Some r c :
  N.of_nat (length (field r)) < field_limit →
  parse_add_char r c = Some (Reader (state r) (field r ++ [c]) (fields r)).
Proof.
  intros Hlen. unfold parse_add_char.
  by destruct (N.leb_spec field_limit (N.of_nat (length (field r)))); [lia|].
Qed.

Lemma must_quote_false c :
  must_quote c = false ↔ c ≠ COMMA ∧ c ≠ DQUOTE ∧ c ≠ CR ∧ c ≠ LF.
Proof.
  unfold must_quote. rewrite !orb_false_iff, !N.eqb_neq. tauto.
Qed.

(** A plain character inside an unquoted field. *)
Lemma step_in_field f fs c :
  must_quote c = false → N.of_nat (length f) < field_limit →
  parse_process_char (Reader IN_FIELD f fs) (Some c)
  = Some (Reader IN_FIELD (f ++ [c]) fs).
Proof.
  intros (? & ? & ? & ?)%must_quote_false Hlen.
  unfold parse_process_char, is_newline. cbn [state].
  rewrite !(proj2 (N.eqb_neq _ _)) by done. cbn [orb].
  by rewrite parse_add_char_Some.
Qed.

(** A plain character at the start of a field, or of a record. *)
Lemma step_start_field st fs c :
  st = START_FIELD ∨ st = START_RECORD →
  must_quote c = false →
  parse_process_char (Reader st [] fs) (Some c)
  = Some (Reader IN_FIELD [c] fs).
Proof.
  intros Hst (? & ? & ? & ?)%must_quote_false.
  unfold parse_process_char, is_newline.
  destruct Hst as [-> | ->]; cbn [state set_state field fields];
    rewrite !(proj2 (N.eqb_neq _ _)) by done; cbn [orb];
    by rewrite parse_add_char_Some.
Qed.

(** Any character but the quote inside a quoted field. *)
Lemma step_in_quoted f fs c :
  c ≠ DQUOTE → N.of_nat (length f) < field_limit →
  parse_process_char (Reader IN_QUOTED_FIELD f fs) (Some c)
  = Some (Reader IN_QUOTED_FIELD (f ++ [c]) fs).
Proof.
  intros Hc Hlen. unfold parse_process_char. cbn [state].
  rewrite (proj2 (N.eqb_neq _ _)) by done.
  by rewrite parse_add_char_Some.
Qed.

(** A doubled quote inside a quoted field stands for one quote. *)
Lemma step_doubled_quote f fs :
  N.of_nat (length f) < field_limit →
  feed_chars (Reader IN_QUOTED_FIELD f fs) [DQUOTE; DQUOTE]
  = Some (Reader IN_QUOTED_FIELD (f ++ [DQUOTE]) fs).
Proof.
  intros Hlen. cbn [feed_chars].
  change (parse_process_char (Reader IN_QUOTED_FIELD f fs) (Some DQUOTE))
    with (Some (Reader QUOTE_IN_QUOTED_FIELD f fs)).
  cbn [mbind option_bind].
  change (parse_process_char (Reader QUOTE_IN_QUOTED_FIELD f fs)
            (Some DQUOTE))
    with (set_state IN_QUOTED_FIELD
            <$> parse_add_char (Reader QUOTE_IN_QUOTED_FIELD f fs) DQUOTE).
  by rewrite parse_add_char_Some.
Qed.
End steps.

Section runs_of_text.
Implicit Types (f s t : pystr) (fs l : list pystr) (c : N) (r : reader_obj)
  (p : bool).

Lemma run_text_pending r p p' t :
  t ≠ [] → run_text r p t = run_text r p' t.
Proof. by destruct t. Qed.

Lemma short_app_lt f c s :
  short (f ++ c :: s) → N.of_nat (length f) < field_limit.
Proof. unfold short. rewrite length_app. simpl. lia. Qed.

(** The characters of an unquoted field go into the field one by one. *)
Lemma run_text_plain f fs p s t :
  Forall (λ c, must_quote c = false) s → short (f ++ s) → t ≠ [] →
  run_text (Reader IN_FIELD f fs) p (s ++ t)
  = run_text (Reader IN_FIELD (f ++ s) fs) p t.
Proof.
  intros Hs. revert f. induction Hs as [|c s Hc _ IH]; intros f Hlen Ht.
  - by rewrite app_nil_r.
  - cbn [app run_text]. rewrite step_in_field;
      [|done|by eapply short_app_lt]. cbn [mbind option_bind].
    apply must_quote_false in Hc as (_ & _ & _ & Hc).
    rewrite (proj2 (N.eqb_neq _ _)) by done.
    rewrite (run_text_pending _ true p) by (by intros [_ ?]%app_eq_nil).
    rewrite IH; [|by rewrite <- app_assoc|done].
    by rewrite <- app_assoc.
Qed.

(** The body of a quoted field: a doubled quote is one quote, a line
    feed is a character of the field and the line ending with it does
    not end the record. *)
Lemma run_text_quoted f fs p s t :
  short (f ++ s) → t ≠ [] →
  run_text (Reader IN_QUOTED_FIELD f fs) p
    ((s ≫= λ c, if c =? DQUOTE then [DQUOTE; DQUOTE] else [c]) ++ t)
  = run_text (Reader IN_QUOTED_FIELD (f ++ s) fs) p t.
Proof.
  revert f p. induction s as [|c s IH]; intros f p Hlen Ht.
  - by rewrite app_nil_r.
  - assert (N.of_nat (length f) < field_limit) as Hf
      by (by eapply short_app_lt).
    assert (short ((f ++ [c]) ++ s)) as Hlen' by (by rewrite <- app_assoc).
    rewrite bind_cons, <- (app_assoc _ _ t).
    rewrite (app_assoc f [c] s : f ++ c :: s = (f ++ [c]) ++ s).
    destruct (N.eqb_spec c DQUOTE) as [->|Hq].
    + cbn [app run_text]. 
      change (parse_process_char (Reader IN_QUOTED_FIELD f fs) (Some DQUOTE))
        with (Some (Reader QUOTE_IN_QUOTED_FIELD f fs)).
      cbn [mbind option_bind].
      change (DQUOTE =? LF) with false. cbn iota.
      change (parse_process_char (Reader QUOTE_IN_QUOTED_FIELD f fs)
                (Some DQUOTE))
        with (set_state IN_QUOTED_FIELD
                <$> parse_add_char (Reader QUOTE_IN_QUOTED_FIELD f fs)
                      DQUOTE).
      rewrite parse_add_char_Some by done.
      cbn [fmap option_fmap option_map set_state state field fields
           mbind option_bind].
      unfold set_state. cbn [state field fields].
      rewrite (run_text_pending _ true p) by (by intros [_ ?]%app_eq_nil).
      by apply IH.
    + cbn [app run_text]. rewrite step_in_quoted by done.
      cbn [mbind option_bind].
      destruct (N.eqb_spec c LF) as [->|Hl].
      * unfold end_of_line. cbn.
        rewrite (run_text_pending _ false p) by (by intros [_ ?]%app_eq_nil).
        by apply IH.
      * rewrite (run_text_pending _ true p) by (by intros [_ ?]%app_eq_nil).
        by apply IH.
Qed.
End runs_of_text.

Section rows_of_text.
Implicit Types (f s t : pystr) (fs l : list pystr) (c : N) (r : reader_obj)
  (p : bool).

Lemma existsb_false_Forall {A} (g : A → bool) (s : list A) :
  existsb g s = false → Forall (λ x, g x = false) s.
Proof.
  induction s as [|x s IH]; simpl; [done|].
  intros [? ?]%orb_false_iff. constructor; auto.
Qed.

(** An unquoted field is written as it is. *)
Lemma join_append_plain f :
  existsb must_quote f = false → join_append f = f.
Proof.
  intros Hq. unfold join_append. rewrite Hq.
  apply existsb_false_Forall in Hq.
  induction Hq as [|c s Hc _ IH]; [done|]. rewrite bind_cons, IH.
  apply must_quote_false in Hc as (_ & Hc & _).
  by rewrite (proj2 (N.eqb_neq _ _)) by done.
Qed.

(** One written field followed by the delimiter. *)
Lemma run_field_comma st fs f p t :
  st = START_FIELD ∨ st = START_RECORD → short f → t ≠ [] →
  run_text (Reader st [] fs) p (join_append f ++ COMMA :: t)
  = run_text (Reader START_FIELD [] (fs ++ [f])) p t.
Proof.
  intros Hst Hlen Ht.
  destruct (existsb must_quote f) eqn:Hq.
  - unfold join_append. rewrite Hq.
    rewrite <- !app_assoc. cbn [app run_text].
    replace (parse_process_char (Reader st [] fs) (Some DQUOTE))
      with (Some (Reader IN_QUOTED_FIELD [] fs))
      by (by destruct Hst as [-> | ->]).
    cbn [mbind option_bind]. change (DQUOTE =? LF) with false. cbn iota.
    rewrite run_text_quoted by done. cbn [app run_text].
    change (parse_process_char (Reader IN_QUOTED_FIELD f fs) (Some DQUOTE))
      with (Some (Reader QUOTE_IN_QUOTED_FIELD f fs)).
    cbn [mbind option_bind]. change (DQUOTE =? LF) with false. cbn iota.
    cbn [run_text].
    change (parse_process_char (Reader QUOTE_IN_QUOTED_FIELD f fs)
              (Some COMMA))
      with (Some (Reader START_FIELD [] (fs ++ [f]))).
    cbn [mbind option_bind]. change (COMMA =? LF) with false. cbn iota.
    by apply run_text_pending.
  - rewrite join_append_plain by done.
    apply existsb_false_Forall in Hq.
    destruct Hq as [|c s Hc Hs].
    + cbn [app run_text].
      replace (parse_process_char (Reader st [] fs) (Some COMMA))
        with (Some (Reader START_FIELD [] (fs ++ [[]])))
        by (by destruct Hst as [-> | ->]).
      cbn [mbind option_bind]. change (COMMA =? LF) with false. cbn iota.
      by apply run_text_pending.
    + cbn [app run_text]. rewrite step_start_field by done.
      cbn [mbind option_bind].
      pose proof Hc as (_ & _ & _ & Hl)%must_quote_false.
      rewrite (proj2 (N.eqb_neq _ _)) by done.
      rewrite run_text_plain by done. cbn [app run_text].
      change (parse_process_char (Reader IN_FIELD (c :: s) fs) (Some COMMA))
        with (Some (Reader START_FIELD [] (fs ++ [c :: s]))).
      cbn [mbind option_bind]. change (COMMA =? LF) with false. cbn iota.
      by apply run_text_pending.
Qed.

(** The last written field of a record and the end of its line. *)
Lemma run_field_lf st fs f p t :
  st = START_FIELD ∨ (st = START_RECORD ∧ f ≠ []) → short f →
  run_text (Reader st [] fs) p (join_append f ++ LF :: t)
  = cons (fs ++ [f]) <$> run_text parse_reset false t.
Proof.
  intros Hst Hlen.
  destruct (existsb must_quote f) eqn:Hq.
  - unfold join_append. rewrite Hq.
    rewrite <- !app_assoc. cbn [app run_text].
    replace (parse_process_char (Reader st [] fs) (Some DQUOTE))
      with (Some (Reader IN_QUOTED_FIELD [] fs))
      by (by destruct Hst as [-> | [-> _]]).
    cbn [mbind option_bind]. change (DQUOTE =? LF) with false. cbn iota.
    rewrite run_text_quoted by done. cbn [app run_text].
    change (parse_process_char (Reader IN_QUOTED_FIELD f fs) (Some DQUOTE))
      with (Some (Reader QUOTE_IN_QUOTED_FIELD f fs)).
    cbn [mbind option_bind]. change (DQUOTE =? LF) with false. cbn iota.
    done.
  - rewrite join_append_plain by done.
    apply existsb_false_Forall in Hq.
    destruct Hq as [|c s Hc Hs].
    + destruct Hst as [-> | [_ ?]]; done.
    + cbn [app run_text].
      rewrite step_start_field by (done || (destruct Hst as [?|[? _]]; auto)).
      cbn [mbind option_bind].
      pose proof Hc as (_ & _ & _ & Hl)%must_quote_false.
      rewrite (proj2 (N.eqb_neq _ _)) by done.
      rewrite run_text_plain by done. done.
Qed.

Lemma join_fields_cons f g l :
  join_fields (f :: g :: l) = join_append f ++ COMMA :: join_fields (g :: l).
Proof. done. Qed.

(** A written record, read from its first field on. *)
Lemma run_fields st fs l p t :
  l ≠ [] → st = START_FIELD ∨ (st = START_RECORD ∧ l ≠ [[]]) →
  Forall short l →
  run_text (Reader st [] fs) p (join_fields l ++ LF :: t)
  = cons (fs ++ l) <$> run_text parse_reset false t.
Proof.
  intros Hne Hst Hl. revert st fs p Hst.
  induction Hl as [|f l Hf Hl IH]; intros st fs p Hst; [done|].
  destruct l as [|g l].
  - cbn [join_fields]. apply run_field_lf; [|done].
    destruct Hst as [?|[? Hn]]; [by left|right]. split; [done|].
    by intros ->.
  - rewrite join_fields_cons, <- app_assoc. cbn [app].
    rewrite run_field_comma; [|destruct Hst as [?|[? _]]; auto|done|].
    + rewrite IH by (done || by left).
      by rewrite <- app_assoc.
    + by intros [_ ?]%app_eq_nil.
Qed.
End rows_of_text.

(** ** The written text *)

Section written_text.
Implicit Types (f s t : pystr) (l : list pystr) (c : N)
  (flds : list (option pystr)) (rows : list (list (option pystr))).

Lemma universal_newlines_crlf s t :
  Forall (λ c, c ≠ CR) s →
  universal_newlines (s ++ CR :: LF :: t) = s ++ LF :: universal_newlines t.
Proof.
  induction 1 as [|c s Hc _ IH]; [done|]. cbn [app universal_newlines].
  rewrite (proj2 (N.eqb_neq _ _)) by done. by rewrite IH.
Qed.

Lemma universal_newlines_no_cr s :
  Forall (λ c, c ≠ CR) (universal_newlines s).
Proof.
  remember (length s) as n eqn:Hn. revert s Hn.
  induction n as [n IH] using lt_wf_ind. intros s ->.
  destruct s as [|c s]; [constructor|]. cbn [universal_newlines].
  destruct (N.eqb_spec c CR) as [->|Hc].
  - constructor; [done|]. destruct s as [|c' s]; [constructor|].
    destruct (c' =? LF); (eapply IH; [|done]); simpl; lia.
  - constructor; [done|]. eapply IH; [|done]. simpl; lia.
Qed.

Lemma universal_newlines_Forall (P : N → Prop) s :
  P LF → Forall P s → Forall P (universal_newlines s).
Proof.
  intros HLF. remember (length s) as n eqn:Hn. revert s Hn.
  induction n as [n IH] using lt_wf_ind. intros s -> Hs.
  destruct Hs as [|c s Hc Hs]; [constructor|]. cbn [universal_newlines].
  destruct (c =? CR).
  - constructor; [done|]. destruct Hs as [|c' s Hc' Hs]; [constructor|].
    destruct (c' =? LF); (eapply IH; [|done|]); simpl; try lia; auto.
  - constructor; [done|]. eapply IH; [|done|done]. simpl; lia.
Qed.

Lemma split_lines_Forall (P : N → Prop) cur t :
  Forall P cur → Forall P t → Forall (Forall P) (split_lines cur t).
Proof.
  intros Hcur Ht. revert cur Hcur.
  induction Ht as [|c t Hc _ IH]; intros cur Hcur; cbn [split_lines].
  - destruct cur; [constructor|]. by constructor.
  - assert (Forall P (cur ++ [c])) by (apply Forall_app; auto).
    destruct (c =? LF); [constructor|]; auto.
Qed.

Lemma join_append_Forall (P : N → Prop) f :
  P DQUOTE → Forall P f → Forall P (join_append f).
Proof.
  intros HQ Hf. unfold join_append.
  assert (Forall P (f ≫= λ c, if c =? DQUOTE then [DQUOTE; DQUOTE] else [c]))
    as Hdata.
  { induction Hf as [|c s Hc _ IH]; [constructor|]. rewrite bind_cons.
    apply Forall_app. split; [|done]. destruct (c =? DQUOTE); auto. }
  destruct (existsb must_quote f); [|done].
  constructor; [done|]. apply Forall_app. auto.
Qed.

Lemma join_fields_Forall (P : N → Prop) l :
  P DQUOTE → P COMMA → Forall (Forall P) l → Forall P (join_fields l).
Proof.
  intros HQ HC. induction 1 as [|f l Hf Hl IH]; [constructor|].
  destruct l as [|g l]; [by apply join_append_Forall|].
  rewrite join_fields_cons. apply Forall_app. split.
  - by apply join_append_Forall.
  - by constructor.
Qed.

(** The body of a written line: as the reader will take it, and made of
    the fields' characters, commas and quotes. *)
Lemma csv_writerow_body flds :
  Forall short (default [] <$> flds) →
  ∃ body,
    csv_writerow flds = body ++ [CR; LF]
    ∧ (∀ P : N → Prop, P DQUOTE → P COMMA →
         Forall (Forall P) (default [] <$> flds) → Forall P body)
    ∧ ∀ p t, run_text parse_reset p (body ++ LF :: t)
             = cons (default [] <$> flds) <$> run_text parse_reset false t.
Proof.
  intros Hshort. unfold csv_writerow.
  set (l := default [] <$> flds) in *.
  destruct flds as [|v flds].
  { exists []. by split_and!. }
  destruct (decide (l = [[]])) as [Hl|Hl].
  { rewrite Hl. exists [DQUOTE; DQUOTE]. split_and!; [done| |done].
    intros P HQ _ _. by repeat constructor. }
  assert (l ≠ []) as Hne by done.
  assert (join_fields l ≠ []) as Hrec.
  { clearbody l. destruct l as [|f [|g l]]; [done| |].
    - cbn [join_fields]. unfold join_append.
      destruct f as [|c f]; [done|]. rewrite bind_cons.
      destruct (existsb must_quote (c :: f)); [done|].
      by destruct (c =? DQUOTE).
    - rewrite join_fields_cons. by intros [_ ?]%app_eq_nil. }
  exists (join_fields l). split_and!.
  - by destruct (join_fields l).
  - intros P HQ HC HP. by apply join_fields_Forall.
  - intros p t. unfold parse_reset. rewrite run_fields; auto.
Qed.

Lemma Forall_clean_short l : Forall clean l → Forall short l.
Proof.
  intros Hl. eapply list.Forall_impl; [exact Hl|]. by intros f [_ ?].
Qed.

Lemma Forall_clean_no_cr l :
  Forall clean l → Forall (Forall (λ c, c ≠ CR)) l.
Proof.
  intros Hl. eapply list.Forall_impl; [exact Hl|]. intros f [Hf _].
  eapply list.Forall_impl; [exact Hf|]. by intros c [_ ?].
Qed.

Lemma Forall_clean_scalar l :
  Forall clean l → Forall (Forall (λ c, is_scalar c = true)) l.
Proof.
  intros Hl. eapply list.Forall_impl; [exact Hl|]. intros f [Hf _].
  eapply list.Forall_impl; [exact Hf|]. by intros c [? _].
Qed.

(** The written lines, once their terminators are translated, run
    through the reader as the rows they were written from. *)
Lemma run_text_written (rows : list (list (option pystr))) :
  Forall (λ flds, Forall clean (default (@nil N) <$> flds)) rows →
  run_text parse_reset false
    (universal_newlines (concat (csv_writerow <$> rows)))
  = Some (fmap (M:=list) (default (@nil N)) <$> rows).
Proof.
  induction 1 as [|flds rows Hflds _ IH]; [done|].
  rewrite fmap_cons, concat_cons.
  destruct (csv_writerow_body flds) as (body & -> & Hbody & Hrun);
    [by apply Forall_clean_short|].
  rewrite <- app_assoc. cbn [app].
  rewrite universal_newlines_crlf
    by (by apply Hbody; [..|apply Forall_clean_no_cr]).
  by rewrite Hrun, IH.
Qed.

Lemma written_scalar (rows : list (list (option pystr))) :
  Forall (λ flds, Forall clean (default (@nil N) <$> flds)) rows →
  Forall (λ c, is_scalar c = true) (concat (csv_writerow <$> rows)).
Proof.
  induction 1 as [|flds rows Hflds _ IH]; [constructor|].
  rewrite fmap_cons, concat_cons. apply Forall_app. split; [|done].
  destruct (csv_writerow_body flds) as (body & -> & Hbody & _);
    [by apply Forall_clean_short|].
  apply Forall_app. split; [|by repeat constructor].
  by apply Hbody; [..|apply Forall_clean_scalar].
Qed.

(** What the script writes reads back as the rows it was written from,
    Python's None turned into the empty string. *)
Lemma written_reads_back (rows : list (list (option pystr))) :
  Forall (λ flds, Forall clean (default (@nil N) <$> flds)) rows →
  text_lines (encode_utf8 (concat (csv_writerow <$> rows))) ≫= csv_reader
  = Some (fmap (M:=list) (default (@nil N)) <$> rows).
Proof.
  intros Hrows. unfold text_lines.
  rewrite decode_encode_utf8 by (by apply written_scalar). simpl.
  unfold csv_reader.
  apply (reader_rows_split_lines parse_reset [] _ parse_reset); [done|].
  by apply run_text_written.
Qed.
End written_text.

(** ** What the reader yields is clean *)

Section reader_invariant.
Context (P : N → Prop).
Implicit Types (r : reader_obj) (c : N) (line : pystr)
  (lines : list pystr).

Lemma set_state_ok st r : fields_ok P r → fields_ok P (set_state st r).
Proof. done. Qed.

Lemma parse_save_field_ok r : fields_ok P r → fields_ok P (parse_save_field r).
Proof.
  intros [Hf Hfs]. split; [by split|]. cbn [parse_save_field fields].
  apply Forall_app. split; [done|]. by constructor.
Qed.

Lemma parse_add_char_ok r c r' :
  fields_ok P r → P c → parse_add_char r c = Some r' → fields_ok P r'.
Proof.
  intros [[Hf Hlen] Hfs] Hc. unfold parse_add_char.
  destruct (N.leb_spec field_limit (N.of_nat (length (field r))));
    [done|].
  intros [= <-]. split; [|done]. cbn [field]. split.
  - apply Forall_app. split; [done|]. by constructor.
  - unfold short. rewrite length_app. simpl. lia.
Qed.

Lemma parse_process_char_ok r (c : option N) r' :
  fields_ok P r → (∀ x, c = Some x → P x) →
  parse_process_char r c = Some r' → fields_ok P r'.
Proof.
  intros Hr Hc. unfold parse_process_char.
  destruct (state r), c as [x|];
    repeat match goal with
    | |- context [if ?b then _ else _] => destruct b
    end;
    try done;
    try (intros [= <-]; auto using set_state_ok, parse_save_field_ok);
    try (intros (r1 & Hadd & ->)%fmap_Some; apply set_state_ok;
         eapply parse_add_char_ok; [| |exact Hadd]; auto using set_state_ok);
    try (intros Hadd; eapply parse_add_char_ok; [| |exact Hadd];
         auto using set_state_ok).
Qed.

Lemma feed_line_ok r line r' :
  fields_ok P r → Forall P line → feed_line r line = Some r' →
  fields_ok P r'.
Proof.
  intros Hr Hline. revert r Hr.
  induction Hline as [|c line Hc _ IH]; intros r Hr; cbn [feed_line].
  - by apply parse_process_char_ok.
  - intros (r1 & Hstep & Hfeed)%bind_Some. apply (IH r1); [|done].
    eapply parse_process_char_ok; [exact Hr| |exact Hstep].
    by intros x [= <-].
Qed.

Lemma reader_rows_ok r lines rows :
  fields_ok P r → Forall (Forall P) lines →
  reader_rows r lines = Some rows →
  Forall (Forall (λ f, Forall P f ∧ short f)) rows.
Proof.
  intros Hr Hlines. revert r rows Hr.
  induction Hlines as [|line lines Hline _ IH]; intros r rows Hr;
    cbn [reader_rows].
  - destruct (unfinished r); intros [= <-]; [|constructor].
    constructor; [|constructor]. by apply parse_save_field_ok.
  - intros (r1 & Hfeed & Hrest)%bind_Some.
    pose proof (feed_line_ok _ _ _ Hr Hline Hfeed) as Hr1.
    assert (fields_ok P parse_reset) as H0 by (by repeat split).
    destruct (state r1);
      try (by eapply IH; [exact Hr1|]).
    apply fmap_Some in Hrest as (rows' & Hrows' & ->).
    constructor; [by destruct Hr1|]. by eapply IH; [exact H0|].
Qed.
End reader_invariant.

(** Every field of every row read from a file is clean. *)
Lemma text_lines_csv_reader_clean raw rows :
  text_lines raw ≫= csv_reader = Some rows → Forall (Forall clean) rows.
Proof.
  intros (lines & Hlines & Hrows)%bind_Some.
  unfold text_lines in Hlines.
  apply bind_Some in Hlines as (t & Ht & [= <-]).
  apply decode_utf8_scalar in Ht.
  apply (reader_rows_ok (λ c, is_scalar c = true ∧ c ≠ CR) parse_reset
           (split_lines [] (universal_newlines t))); [|..|done].
  - by repeat split.
  - apply split_lines_Forall; [constructor|].
    apply list.Forall_and. split.
    + by apply universal_newlines_Forall.
    + apply universal_newlines_no_cr.
Qed.

(** ** Row dicts written and read back *)

Section read_back.
Implicit Types (fieldnames row : list pystr) (key : pystr) (d : row_dict)
  (fs : filesystem).

Lemma foldl_insert_Some_elem (l : list (pystr * pystr))
    (m : gmap pystr (option pystr)) key v :
  foldl (λ m kv, <[kv.1 := Some kv.2]> m) m l !! key = Some v →
  m !! key = Some v ∨ ∃ s, v = Some s ∧ (key, s) ∈ l.
Proof.
  revert m. induction l as [|[k x] l IH]; intros m; simpl; [by left|].
  intros [Hin|(s & -> & Hin)]%IH.
  - apply lookup_insert_Some in Hin as [[<- <-]|[_ Hin]]; [|by left].
    right. exists x. split; [done|]. by left.
  - right. exists s. split; [done|]. by right.
Qed.

Lemma dict_zip_lookup_val (keys vals : list pystr) key s :
  dict_zip keys vals !! key = Some (Some s) → s ∈ vals.
Proof.
  unfold dict_zip. intros [Hin|(s' & [= <-] & Hin)]%foldl_insert_Some_elem.
  - by rewrite lookup_empty in Hin.
  - by eapply elem_of_zip_r.
Qed.

Lemma DictReader_row_clean fieldnames row :
  Forall clean row → row_clean (DictReader_row fieldnames row).
Proof.
  intros Hrow key s. rewrite list.Forall_forall in Hrow.
  unfold DictReader_row. repeat case_match; cbn [cells].
  - intros ?%dict_zip_lookup_val. auto.
  - intros [?%dict_zip_lookup_val|[_ ?]]%foldl_insert_None_lookup;
      [auto|done].
  - intros ?%dict_zip_lookup_val. auto.
Qed.

Lemma filtered_row_clean d : row_clean d → row_clean (filtered_row d).
Proof.
  intros Hd key s [Hin _]%map_lookup_filter_Some. by eapply Hd.
Qed.

Lemma clean_nil : clean [].
Proof. split; [constructor|done]. Qed.

Lemma written_cells_clean fieldnames d :
  row_clean d → Forall clean (written_cells fieldnames d).
Proof.
  intros Hd. apply Forall_fmap, list.Forall_forall. intros key _. simpl.
  unfold dict_get. destruct (cells d !! key) as [[s|]|] eqn:Hs; simpl;
    eauto using clean_nil.
Qed.

(** [dict(zip(keys, values))] when the values are computed from the
    keys: duplicates among the keys do no harm. *)
Lemma dict_zip_fmap (g : pystr → pystr) fieldnames key :
  dict_zip fieldnames (g <$> fieldnames) !! key
  = if decide (key ∈ fieldnames) then Some (Some (g key)) else None.
Proof.
  unfold dict_zip.
  assert (∀ m : gmap pystr (option pystr),
    foldl (λ m kv, <[kv.1 := Some kv.2]> m) m
      (zip fieldnames (g <$> fieldnames)) !! key
    = if decide (key ∈ fieldnames) then Some (Some (g key)) else m !! key)
    as Hfold.
  { induction fieldnames as [|k l IH]; intros m; [done|].
    cbn [fmap list_fmap zip zip_with foldl]. rewrite IH. cbn [fst snd].
    destruct (decide (key ∈ l)) as [Hl|Hl].
    - by rewrite decide_True by (by right).
    - destruct (decide (key = k)) as [->|Hk].
      + rewrite decide_True by (by left). by rewrite lookup_insert_eq.
      + rewrite decide_False by (by intros [?|?]%elem_of_cons).
        by rewrite lookup_insert_ne. }
  rewrite Hfold. by destruct (decide _).
Qed.

(** The writer puts out the same line for Python's None as for the
    empty string. *)
Lemma csv_writerow_default (flds : list (option pystr)) :
  csv_writerow (Some <$> (default [] <$> flds)) = csv_writerow flds.
Proof.
  unfold csv_writerow.
  assert (default (@nil N) <$> (Some <$> (default [] <$> flds))
          = default [] <$> flds) as ->.
  { rewrite <- !list_fmap_compose. by apply list_fmap_ext. }
  by destruct flds.
Qed.

Lemma filter_all {A} (P : A → Prop) `{!∀ x, Decision (P x)} (l : list A) :
  Forall P l → filter P l = l.
Proof.
  induction 1 as [|x l Hx _ IH]; [done|].
  by rewrite filter_cons, decide_True, IH by done.
Qed.

Lemma filter_filter_id {A} (P : A → Prop) `{!∀ x, Decision (P x)}
    (l : list A) :
  filter P (filter P l) = filter P l.
Proof.
  induction l as [|x l IH]; [done|]. rewrite filter_cons.
  destruct (decide (P x)); [|done].
  by rewrite filter_cons, decide_True, IH by done.
Qed.

(** A header and rows written by the script read back as the header and
    one row dict per row, holding the written cells. *)
Lemma open_reader_written fieldnames (rowdicts : list row_dict) :
  Forall clean fieldnames →
  Forall row_clean rowdicts →
  (rowdicts ≠ [] → fieldnames ≠ []) →
  open_reader
    (encode_utf8 (writeheader fieldnames
                  ++ concat (row_line fieldnames <$> rowdicts)))
  = Some (fieldnames,
          (λ d, Row (dict_zip fieldnames (written_cells fieldnames d)) None)
            <$> rowdicts).
Proof.
  intros Hhdr Hrows Hne.
  set (rows := (Some <$> fieldnames)
               :: ((λ d, (λ key, dict_get d key []) <$> fieldnames)
                     <$> rowdicts)).
  assert (writeheader fieldnames
          ++ concat (row_line fieldnames <$> rowdicts)
          = concat (csv_writerow <$> rows)) as ->.
  { unfold rows. rewrite fmap_cons, concat_cons.
    by rewrite <- list_fmap_compose. }
  assert (fmap (M:=list) (default (@nil N)) <$> rows
          = fieldnames :: (written_cells fieldnames <$> rowdicts)) as Hback.
  { unfold rows. rewrite fmap_cons. f_equal.
    - rewrite <- list_fmap_compose. apply list_fmap_id.
    - rewrite <- list_fmap_compose. apply list_fmap_ext.
      intros i d _. simpl. unfold written_cells.
      by rewrite <- list_fmap_compose. }
  assert (Forall (Forall clean) (fmap (M:=list) (default (@nil N)) <$> rows))
    as Hclean.
  { rewrite Hback. constructor; [done|]. apply Forall_fmap.
    eapply list.Forall_impl; [exact Hrows|].
    intros d Hd. by apply written_cells_clean. }
  rewrite Forall_fmap in Hclean.
  pose proof (written_reads_back rows Hclean) as Hread.
  rewrite Hback in Hread.
  apply bind_Some in Hread as (lines & Hlines & Hread).
  unfold open_reader. rewrite Hlines. simpl. rewrite Hread. simpl.
  do 2 f_equal.
  rewrite filter_all.
  - rewrite <- list_fmap_compose. apply list_fmap_ext. intros i d _. simpl.
    apply DictReader_row_rectangular. unfold written_cells.
    by rewrite length_fmap.
  - apply Forall_fmap, list.Forall_forall. intros d Hd. simpl.
    assert (fieldnames ≠ []) as Hf
      by (apply Hne; intros ->; by apply elem_of_nil in Hd).
    unfold written_cells. by destruct fieldnames.
Qed.
End read_back.

Section refilter.
Implicit Types (fieldnames row : list pystr) (key : pystr) (d : row_dict)
  (fs : filesystem) (reader : list row_dict).

(** The row dict read back from the line written for [d]. *)
Lemma cells_read_back fieldnames d key :
  dict_zip fieldnames (written_cells fieldnames d) !! key
  = if decide (key ∈ fieldnames)
    then Some (Some (default [] (dict_get d key []))) else None.
Proof. apply (dict_zip_fmap (λ key, default [] (dict_get d key []))). Qed.

Lemma select_rows_all_kept reader :
  Forall (λ d, keep_row d = Some true) reader →
  select_rows reader = Some (filtered_row <$> reader).
Proof.
  induction 1 as [|d reader Hd _ IH]; [done|].
  cbn [select_rows]. by rewrite Hd, IH.
Qed.

(** A selected row is selected again when it is read back. *)
Lemma keep_row_read_back fieldnames d :
  str "iso_country" ∈ fieldnames → str "icao_code" ∈ fieldnames →
  keep_row d = Some true →
  keep_row (Row (dict_zip fieldnames (written_cells fieldnames d)) None)
  = Some true.
Proof.
  intros Hiso Hicao (country & code & Hc & Hi & ? & ?)%keep_row_true_iff.
  apply keep_row_true_iff. exists country, code. cbn [cells].
  rewrite !cells_read_back, !decide_True by done.
  unfold dict_get. rewrite Hc, Hi. done.
Qed.

(** The line written for a row that was read back is the line it was
    read from. *)
Lemma row_line_read_back fieldnames d :
  Forall (λ key, key ∉ columns_to_remove) fieldnames →
  row_line fieldnames
    (filtered_row (Row (dict_zip fieldnames (written_cells fieldnames d))
                     None))
  = row_line fieldnames d.
Proof.
  intros Hkeys. unfold row_line.
  rewrite <- (csv_writerow_default ((λ key, dict_get d key []) <$> _)).
  f_equal. rewrite <- !list_fmap_compose. apply list_fmap_ext.
  intros i key Hi. simpl.
  assert (key ∈ fieldnames) as Hin by (by eapply list_elem_of_lookup_2).
  rewrite dict_get_filtered_row
    by (rewrite list.Forall_forall in Hkeys; auto).
  unfold dict_get at 1. cbn [cells].
  by rewrite cells_read_back, decide_True.
Qed.

Lemma wrong_fields_read_back fieldnames d :
  wrong_fields fieldnames
    (filtered_row (Row (dict_zip fieldnames (written_cells fieldnames d))
                     None)) = false.
Proof.
  unfold wrong_fields. cbn [rest filtered_row].
  rewrite bool_decide_eq_false_2 by (by intros [? ?]). cbn [orb].
  apply negb_false_iff, bool_decide_eq_true.
  intros key [v Hv]%elem_of_dom. unfold filtered_row in Hv.
  cbn [cells] in Hv. apply map_lookup_filter_Some in Hv as [Hv _].
  apply elem_of_list_to_set. rewrite cells_read_back in Hv.
  by destruct (decide (key ∈ fieldnames)).
Qed.

(** Filtering the text written for a header without removed columns and
    for selected rows selects every row and writes the same text. *)
Lemma refilter_written fieldnames (rowdicts : list row_dict) :
  Forall clean fieldnames →
  Forall (λ key, key ∉ columns_to_remove) fieldnames →
  Forall (λ d, row_clean d ∧ keep_row d = Some true) rowdicts →
  (rowdicts ≠ [] →
   str "iso_country" ∈ fieldnames ∧ str "icao_code" ∈ fieldnames) →
  ∃ data,
    read_and_select
      (encode_utf8 (writeheader fieldnames
                    ++ concat (row_line fieldnames <$> rowdicts)))
    = Some (fieldnames, data)
    ∧ write_filtered fieldnames data
      = (true,
         encode_utf8 (writeheader fieldnames
                      ++ concat (row_line fieldnames <$> rowdicts))).
Proof.
  intros Hhdr Hkeys Hrows Hcols.
  set (back := λ d, Row (dict_zip fieldnames (written_cells fieldnames d))
                      None).
  exists (filtered_row <$> (back <$> rowdicts)). split.
  - unfold read_and_select. rewrite open_reader_written.
    + cbn [mbind option_bind]. rewrite select_rows_all_kept.
      * cbn [mbind option_bind]. by rewrite filter_all.
      * apply Forall_fmap, list.Forall_forall. intros d Hd. simpl.
        destruct Hcols as [Hiso Hicao];
          [intros ->; by apply elem_of_nil in Hd|].
        rewrite list.Forall_forall in Hrows.
        apply keep_row_read_back; [done|done|]. by apply Hrows.
    + done.
    + eapply list.Forall_impl; [exact Hrows|]. by intros d [? _].
    + intros [Hiso _]%Hcols ->. by apply elem_of_nil in Hiso.
  - unfold write_filtered. rewrite writerows_all.
    + rewrite <- !list_fmap_compose.
      rewrite (list_fmap_ext (row_line fieldnames ∘ filtered_row ∘ back)
                 (row_line fieldnames) rowdicts); [done|].
      intros i d _. simpl. by apply row_line_read_back.
    + apply Forall_fmap, Forall_fmap, list.Forall_forall. intros d _. simpl.
      apply wrong_fields_read_back.
Qed.
End refilter.

Section published_file.
Implicit Types (fieldnames row : list pystr) (key : pystr) (d : row_dict)
  (fs : filesystem) (reader : list row_dict)
  (input_path output_path : path).

(** What an input file that opens as a table holds: clean field names
    and clean rows. *)
Lemma open_reader_clean raw fieldnames reader :
  open_reader raw = Some (fieldnames, reader) →
  Forall clean fieldnames ∧ Forall row_clean reader.
Proof.
  intros (lines & body & Hlines & Hrows & ->)%open_reader_Some.
  assert (text_lines raw ≫= csv_reader = Some (fieldnames :: body)) as Hall
    by (by rewrite Hlines).
  apply text_lines_csv_reader_clean in Hall.
  apply list.Forall_cons in Hall as [Hhdr Hbody]. split; [done|].
  apply Forall_fmap, list.Forall_forall.
  intros row [_ Hrow]%list_elem_of_filter. simpl.
  apply DictReader_row_clean. rewrite list.Forall_forall in Hbody. auto.
Qed.

(** What the second pass needs to know of the projected header and of
    the rows the loop has collected. *)
Lemma selected_rows_facts raw fieldnames reader :
  open_reader raw = Some (fieldnames, reader) →
  Forall clean (filter (λ f, f ∉ columns_to_remove) fieldnames)
  ∧ Forall (λ key, key ∉ columns_to_remove)
      (filter (λ f, f ∉ columns_to_remove) fieldnames)
  ∧ Forall (λ d, row_clean d ∧ keep_row d = Some true)
      (filtered_row <$> filter (λ d, keep_row d = Some true) reader)
  ∧ (filtered_row <$> filter (λ d, keep_row d = Some true) reader ≠ [] →
     str "iso_country" ∈ filter (λ f, f ∉ columns_to_remove) fieldnames
     ∧ str "icao_code" ∈ filter (λ f, f ∉ columns_to_remove) fieldnames).
Proof.
  intros Hopen.
  destruct (open_reader_clean _ _ _ Hopen) as [Hhdr Hreader].
  apply open_reader_Some in Hopen as (lines & body & _ & _ & Hrd).
  assert (∀ d, d ∈ filter (λ d, keep_row d = Some true) reader →
               row_clean d ∧ keep_row d = Some true
               ∧ ∀ key v, cells d !! key = Some v → key ∈ fieldnames)
    as Hkept.
  { intros d [Hk Hin]%list_elem_of_filter. split_and!; [|done|].
    - rewrite list.Forall_forall in Hreader. auto.
    - subst reader. apply list_elem_of_fmap in Hin as (row & -> & _).
      intros key v. apply DictReader_row_lookup. }
  split_and!.
  - rewrite list.Forall_forall in Hhdr. apply list.Forall_forall.
    intros f [_ ?]%list_elem_of_filter. auto.
  - apply list.Forall_forall. by intros f [? _]%list_elem_of_filter.
  - apply Forall_fmap, list.Forall_forall. intros d Hd. simpl.
    destruct (Hkept d Hd) as (Hc & Hk & _). split.
    + by apply filtered_row_clean.
    + by rewrite keep_row_filtered_row.
  - intros Hne.
    destruct (filter (λ d, keep_row d = Some true) reader)
      as [|d kept] eqn:Hf; [done|].
    destruct (Hkept d) as (_ & Hk & Hdom); [by left|].
    apply keep_row_true_iff in Hk as (country & code & Hc & Hi & _).
    split; apply list_elem_of_filter; split;
      eauto using iso_country_kept, icao_code_kept.
Qed.
End published_file.

(** What a successful call has written is a table the filter accepts,
    and filtering it writes it again. *)
Lemma filter_csv_output_refilters (input_path output_path : path)
    (fs fs' : filesystem) :
  filter_csv input_path output_path fs = (true, fs') →
  ∃ content hdr data,
    fs' !! output_path = Some content
    ∧ read_and_select content = Some (hdr, data)
    ∧ write_filtered hdr data = (true, content).
Proof.
  intros (raw & fieldnames & reader & fd & Hraw & Hopen & Hsel & ->)
    %filter_csv_true_inv.
  apply select_rows_Some in Hsel as [_ ->].
  destruct (selected_rows_facts _ _ _ Hopen) as (Hhdr & Hkeys & Hrows & Hcols).
  destruct (refilter_written _ _ Hhdr Hkeys Hrows Hcols)
    as (data & Hread & Hwrite).
  eexists _, _, data. split_and!;
    [by rewrite lookup_insert_eq|exact Hread|exact Hwrite].
Qed.

(** X15.  The file a successful [filter_csv] has written is itself a table
    the reader accepts.  Read back, its header is the input header less
    the removed columns, and it has one row per selected row, in order:
    no surplus cells, and under every kept column the cell that was
    written, which is the row's string there or the empty string where
    the row had none. *)
Theorem filter_csv_output_reads_back (input_path output_path : path)
    (fs fs' : filesystem) (raw : bytes) (fieldnames : list pystr)
    (reader : list row_dict) :
  fs !! input_path = Some raw →
  open_reader raw = Some (fieldnames, reader) →
  filter_csv input_path output_path fs = (true, fs') →
  ∃ content reader',
    fs' !! output_path = Some content
    ∧ open_reader content
      = Some (filter (λ f, f ∉ columns_to_remove) fieldnames, reader')
    ∧ Forall2
        (λ d d',
           rest d' = None
           ∧ ∀ key,
               cells d' !! key
               = if decide (key ∈ fieldnames ∧ key ∉ columns_to_remove)
                 then Some (Some (default [] (dict_get d key [])))
                 else None)
        (filter (λ row, keep_row row = Some true) reader) reader'.
Proof.
  intros Hraw Hopen Hfilter.
  apply filter_csv_true_inv in Hfilter
    as (raw' & fieldnames' & reader'' & fd & Hraw' & Hopen' & Hsel & ->).
  assert (raw' = raw) as -> by congruence.
  assert (fieldnames' = fieldnames ∧ reader'' = reader) as [-> ->]
    by (split; congruence).
  apply select_rows_Some in Hsel as [_ ->].
  destruct (selected_rows_facts _ _ _ Hopen) as (Hhdr & Hkeys & Hrows & Hcols).
  cbn zeta. set (hdr := filter (λ f, f ∉ columns_to_remove) fieldnames) in *.
  eexists _, _. split_and!.
  - by rewrite lookup_insert_eq.
  - apply open_reader_written; [done| |].
    + eapply list.Forall_impl; [exact Hrows|]. by intros d [? _].
    + intros [Hiso _]%Hcols ->. by apply elem_of_nil in Hiso.
  - apply Forall2_fmap_r, Forall2_fmap_r, Forall_Forall2_diag.
    apply list.Forall_forall. intros d _. split; [done|]. intros key.
    cbn [cells]. rewrite cells_read_back. unfold hdr.
    destruct (decide (key ∈ fieldnames ∧ key ∉ columns_to_remove))
      as [[Hin Hkey]|Hno].
    + rewrite decide_True by (by apply list_elem_of_filter).
      by rewrite dict_get_filtered_row.
    + rewrite decide_False; [done|].
      intros [? ?]%list_elem_of_filter. by apply Hno.
Qed.

(** The sample with quoted fields and a short row. *)
Lemma filter_csv_output_reads_back_witness :
  Sample.fs_staged Sample.quoted !! Sample.staging = Some Sample.quoted
  ∧ open_reader Sample.quoted
    = Some (Sample.quoted_header, Sample.quoted_reader)
  ∧ filter_csv Sample.staging Sample.output (Sample.fs_staged Sample.quoted)
    = (true, Sample.fs_quoted)
  ∧ ∃ content reader',
      Sample.fs_quoted !! Sample.output = Some content
      ∧ open_reader content
        = Some (filter (λ f, f ∉ columns_to_remove) Sample.quoted_header,
                reader')
      ∧ Forall2
          (λ d d',
             rest d' = None
             ∧ ∀ key,
                 cells d' !! key
                 = if decide (key ∈ Sample.quoted_header
                              ∧ key ∉ columns_to_remove)
                   then Some (Some (default [] (dict_get d key [])))
                   else None)
          (filter (λ row, keep_row row = Some true) Sample.quoted_reader)
          reader'.
Proof.
  assert (Sample.fs_staged Sample.quoted !! Sample.staging
          = Some Sample.quoted) as Hraw by reflexivity.
  assert (open_reader Sample.quoted
          = Some (Sample.quoted_header, Sample.quoted_reader)) as Hopen
    by (by vm_compute).
  assert (filter_csv Sample.staging Sample.output
            (Sample.fs_staged Sample.quoted)
          = (true, Sample.fs_quoted)) as Hrun by reflexivity.
  split_and!; [exact Hraw|exact Hopen|exact Hrun|].
  exact (filter_csv_output_reads_back Sample.staging Sample.output
           (Sample.fs_staged Sample.quoted) Sample.fs_quoted Sample.quoted
           Sample.quoted_header Sample.quoted_reader Hraw Hopen Hrun).
Defined.

(** X16.  What [filter_csv] writes is a fixed point of it.  After a call
    that returned True the output file is a table the reading phase
    accepts, and the writer makes the same bytes of it again: a second
    call on it has no reason in the data to fail, and when it returns
    True it has written, to whatever path, the bytes it read. *)
Theorem filter_csv_idempotent (input_path output_path : path)
    (fs fs' : filesystem) :
  filter_csv input_path output_path fs = (true, fs') →
  ∃ content,
    fs' !! output_path = Some content
    ∧ (∃ hdr data,
         read_and_select content = Some (hdr, data)
         ∧ write_filtered hdr data = (true, content))
    ∧ ∀ again fs'',
        filter_csv output_path again fs' = (true, fs'') →
        fs'' = <[again := content]> fs'.
Proof.
  intros (content & hdr & data & Hout & Hread & Hwrite)
    %filter_csv_output_refilters.
  exists content. split_and!; [done|by exists hdr, data|].
  intros again fs''.
  rewrite (filter_csv_written _ _ _ content hdr data) by done.
  rewrite Hwrite. by intros [= <-].
Qed.

(** The sample with quoted fields and a short row, filtered twice. *)
Lemma filter_csv_idempotent_witness :
  filter_csv Sample.staging Sample.output (Sample.fs_staged Sample.quoted)
  = (true, Sample.fs_quoted)
  ∧ ∃ content,
      Sample.fs_quoted !! Sample.output = Some content
      ∧ (∃ hdr data,
           read_and_select content = Some (hdr, data)
           ∧ write_filtered hdr data = (true, content))
      ∧ ∀ again fs'',
          filter_csv Sample.output again Sample.fs_quoted = (true, fs'') →
          fs'' = <[again := content]> Sample.fs_quoted.
Proof.
  assert (filter_csv Sample.staging Sample.output
            (Sample.fs_staged Sample.quoted)
          = (true, Sample.fs_quoted)) as Hrun by reflexivity.
  split; [exact Hrun|].
  exact (filter_csv_idempotent Sample.staging Sample.output
           (Sample.fs_staged Sample.quoted) Sample.fs_quoted Hrun).
Defined.

(** X17.  A source that serves, whole, a file [filter_csv] once wrote: a
    cycle that returns True has published that very file, byte for byte,
    whatever was at the output path before, and has left no staging
    file. *)
Theorem run_once_republish (get : pystr → response)
    (input_path published output_path : path)
    (fs0 fs0' fs fs1 : filesystem) (content : bytes)
    (chunks : list bytes) :
  filter_csv input_path published fs0 = (true, fs0') →
  fs0' !! published = Some content →
  get AIRPORTS_CSV_URL = Body chunks true →
  concat chunks = content →
  run_once get output_path fs = (Returned true, fs1) →
  ∃ tp,
    temp_path output_path = Some tp
    ∧ fs1 !! output_path = Some content
    ∧ fs1 !! tp = None
    ∧ fs1 = delete tp (<[output_path := content]> fs).
Proof.
  intros (content' & hdr & data & Hout & Hread & Hwrite)
    %filter_csv_output_refilters Hpub Hget Hchunks.
  assert (content' = content) as -> by congruence.
  rewrite run_once_unfold.
  destruct (temp_path output_path) as [tp|] eqn:Htp; [|done].
  pose proof (temp_path_ne _ _ Htp) as Hne.
  rewrite Hget, written_chunks_concat, Hchunks, Hread, Hwrite.
  intros [= <-]. exists tp. split_and!; [done|by fs_lookup|by fs_lookup|done].
Qed.

(** The filtered sample served back to a cycle. *)
Lemma run_once_republish_witness :
  filter_csv Sample.staging Sample.output (Sample.fs_staged Sample.quoted)
  = (true, Sample.fs_quoted)
  ∧ Sample.fs_quoted !! Sample.output = Some Sample.quoted_filtered
  ∧ Sample.serves Sample.quoted_filtered AIRPORTS_CSV_URL
    = Body [Sample.quoted_filtered] true
  ∧ concat [Sample.quoted_filtered] = Sample.quoted_filtered
  ∧ run_once (Sample.serves Sample.quoted_filtered) Sample.output
      Sample.fs_published
    = (Returned true,
       delete Sample.staging
         (<[Sample.output := Sample.quoted_filtered]> Sample.fs_published))
  ∧ ∃ tp,
      temp_path Sample.output = Some tp
      ∧ delete Sample.staging
          (<[Sample.output := Sample.quoted_filtered]> Sample.fs_published)
          !! Sample.output
        = Some Sample.quoted_filtered
      ∧ delete Sample.staging
          (<[Sample.output := Sample.quoted_filtered]> Sample.fs_published)
          !! tp
        = None
      ∧ delete Sample.staging
          (<[Sample.output := Sample.quoted_filtered]> Sample.fs_published)
        = delete tp
            (<[Sample.output := Sample.quoted_filtered]>
               Sample.fs_published).
Proof.
  assert (filter_csv Sample.staging Sample.output
            (Sample.fs_staged Sample.quoted)
          = (true, Sample.fs_quoted)) as Hrun by reflexivity.
  assert (Sample.fs_quoted !! Sample.output = Some Sample.quoted_filtered)
    as Hpub by reflexivity.
  assert (concat [Sample.quoted_filtered] = Sample.quoted_filtered)
    as Hchunks by apply app_nil_r.
  assert (run_once (Sample.serves Sample.quoted_filtered) Sample.output
            Sample.fs_published
          = (Returned true,
             delete Sample.staging
               (<[Sample.output := Sample.quoted_filtered]>
                  Sample.fs_published))) as Hcycle by reflexivity.
  split_and!; [exact Hrun|exact Hpub|reflexivity|exact Hchunks|exact Hcycle|].
  exact (run_once_republish (Sample.serves Sample.quoted_filtered)
           Sample.staging Sample.output Sample.output
           (Sample.fs_staged Sample.quoted) Sample.fs_quoted
           Sample.fs_published _ Sample.quoted_filtered
           [Sample.quoted_filtered] Hrun Hpub eq_refl Hchunks Hcycle).
Defined.
